(** * A shallow embedding of the chess rules engine
      (src/project2_17C_chessGame.cpp)

    The board is the [std::unordered_map<Position, ChessPiece*>] of the
    source: a finite map whose values are pointers, so an entry can hold the
    null pointer.  Every [ChessPiece] object is owned by at most one entry of
    the map, which lets the map store the object itself ([Some piece]) or the
    null pointer ([None]).  A run of the C++ code that dereferences a null
    pointer, lets [at] throw, or touches a deleted object is a [Crash]. *)

From Stdlib Require Import ZArith String Ascii List Bool Lia DecimalString.
From stdpp Require Import base option gmap fin_maps.
Import ListNotations.

Local Open Scope Z_scope.

(** ** Outcomes of a run *)

Inductive Fault : Type :=
| NullDereference   (* a member is read through a null [ChessPiece*] *)
| OutOfRange        (* [unordered_map::at] throws [std::out_of_range] *)
| UseAfterFree      (* a deleted [ChessPiece] is used again *)
| BadIndex.         (* [operator[]] of a [std::string] past its end *)

Inductive outcome (A : Type) : Type :=
| Ret (a : A)
| Crash (f : Fault).

Arguments Ret {A} a.
Arguments Crash {A} f.

#[global] Instance outcome_ret : MRet outcome := fun A a => Ret a.

#[global] Instance outcome_bind : MBind outcome := fun A B k x =>
  match x with
  | Ret a => k a
  | Crash f => Crash f
  end.

(** ** Squares *)

Inductive Color : Type := WHITE | BLACK.

Definition Color_eqb (a b : Color) : bool :=
  match a, b with
  | WHITE, WHITE | BLACK, BLACK => true
  | _, _ => false
  end.

(** [Position]: a [char] column and an [int] row.  The pair is ordered
    by [std::tie(column, row)]. *)
Abbreviation Position := (Z * Z)%type.

Definition column (p : Position) : Z := fst p.
Definition row (p : Position) : Z := snd p.

(** Conversion of an [int] to [char] (a signed 8-bit type here), as done by
    the constructor [Position(char c, int r)] when it is given an [int]
    such as [position.column + i].  Rows are [int]s and stay far from the
    ends of their range. *)
Definition to_char (z : Z) : Z := (z + 128) mod 256 - 128.

Definition mkPosition (c r : Z) : Position := (to_char c, r).

Definition Position_eqb (p q : Position) : bool :=
  (column p =? column q) && (row p =? row q).

Definition Position_ltb (p q : Position) : bool :=
  (column p <? column q) || ((column p =? column q) && (row p <? row q)).

(** Character constants of the source. *)
Definition ch (c : ascii) : Z := to_char (Z.of_N (N_of_ascii c)).

(** ** [std::set<Position>]: strictly increasing lists *)

Fixpoint set_insert (p : Position) (s : list Position) : list Position :=
  match s with
  | [] => [p]
  | q :: s' =>
      if Position_ltb p q then p :: q :: s'
      else if Position_eqb p q then q :: s'
      else q :: set_insert p s'
  end.

Definition set_mem (p : Position) (s : list Position) : bool :=
  existsb (Position_eqb p) s.

(** ** Pieces *)

Inductive Kind : Type := Pawn | Rook | Knight | Bishop | Queen | King.

Record ChessPiece : Type := mkPiece {
  kind : Kind;
  color : Color;
  position : Position;
  hasMoved : bool
}.

Definition setPosition (p : Position) (x : ChessPiece) : ChessPiece :=
  {| kind := kind x; color := color x; position := p; hasMoved := hasMoved x |}.

Definition markAsMoved (x : ChessPiece) : ChessPiece :=
  {| kind := kind x; color := color x; position := position x; hasMoved := true |}.

Definition toString (x : ChessPiece) : string :=
  match kind x, color x with
  | Pawn, WHITE => "P" | Pawn, BLACK => "p"
  | Rook, WHITE => "R" | Rook, BLACK => "r"
  | Knight, WHITE => "N" | Knight, BLACK => "n"
  | Bishop, WHITE => "B" | Bishop, BLACK => "b"
  | Queen, WHITE => "Q" | Queen, BLACK => "q"
  | King, WHITE => "K" | King, BLACK => "k"
  end%string.

(** The occupancy map; a value [None] is a null pointer stored under a key. *)
Abbreviation PieceMap := (gmap Position (option ChessPiece)).

(** [board.find(p) == board.end()] *)
Definition absent (board : PieceMap) (p : Position) : bool :=
  match board !! p with
  | None => true
  | Some _ => false
  end.

(** [board.find(p) != board.end() && board.at(p)->getColor() != c] *)
Definition holds_opponent (board : PieceMap) (p : Position) (c : Color)
  : outcome bool :=
  match board !! p with
  | None => Ret false
  | Some None => Crash NullDereference
  | Some (Some x) => Ret (negb (Color_eqb (color x) c))
  end.

Definition in_bounds (p : Position) : bool :=
  (row p >=? 1) && (row p <=? 8) && (column p >=? ch "a") && (column p <=? ch "h").

(** ** Move generation *)

Module Pawn.

Definition direction (c : Color) : Z :=
  match c with WHITE => 1 | BLACK => -1 end.

Definition forward (x : ChessPiece) (board : PieceMap) (moves : list Position)
  : list Position :=
  let d := direction (color x) in
  let oneStep : Position := (column (position x), row (position x) + d) in
  if absent board oneStep then
    let moves := set_insert oneStep moves in
    if negb (hasMoved x) then
      let twoStep : Position :=
        (column (position x), row (position x) + 2 * d) in
      if absent board twoStep then set_insert twoStep moves else moves
    else moves
  else moves.

Definition capture (x : ChessPiece) (board : PieceMap) (dc : Z)
    (moves : list Position) : outcome (list Position) :=
  let capturePos :=
    mkPosition (column (position x) + dc)
               (row (position x) + direction (color x)) in
  opp ← holds_opponent board capturePos (color x);
  Ret (if opp : bool then set_insert capturePos moves else moves).

Definition enPassant (x : ChessPiece) (board : PieceMap)
    (lastMovePos : Position) (enPassantAvailable : bool)
    (moves : list Position) : outcome (list Position) :=
  if enPassantAvailable && negb (hasMoved x) then
    let leftEnPassant := mkPosition (column (position x) - 1) (row (position x)) in
    let rightEnPassant := mkPosition (column (position x) + 1) (row (position x)) in
    if Position_eqb lastMovePos leftEnPassant
       || Position_eqb lastMovePos rightEnPassant then
      match board !! lastMovePos with
      | None => Crash OutOfRange
      | Some None => Ret moves
      | Some (Some adjacentPawn) =>
          if String.eqb (toString adjacentPawn)
               (match color x with WHITE => "p" | BLACK => "P" end)
             && negb (hasMoved adjacentPawn) then
            Ret (set_insert
                   (column lastMovePos, row (position x) + direction (color x))
                   moves)
          else Ret moves
      end
    else Ret moves
  else Ret moves.

Definition legalMoves (x : ChessPiece) (board : PieceMap)
    (lastMovePos : Position) (enPassantAvailable : bool)
  : outcome (list Position) :=
  let moves := forward x board [] in
  moves ← capture x board (-1) moves;
  moves ← capture x board 1 moves;
  enPassant x board lastMovePos enPassantAvailable moves.

End Pawn.

(** The index range [1..8] of the [for] loops. *)
Definition one_to_eight : list Z := [1; 2; 3; 4; 5; 6; 7; 8].

Module Rook.

Definition verticalStep (x : ChessPiece) (moves : list Position) (i : Z)
  : list Position :=
  if negb (i =? row (position x))
  then set_insert (column (position x), i) moves
  else moves.

Definition horizontalStep (x : ChessPiece) (moves : list Position) (i : Z)
  : list Position :=
  if negb (i =? column (position x) - ch "a" + 1)
  then set_insert (mkPosition (ch "a" + i - 1) (row (position x))) moves
  else moves.

Definition legalMoves (x : ChessPiece) (board : PieceMap)
    (lastMovePos : Position) (enPassantAvailable : bool)
  : outcome (list Position) :=
  let moves := fold_left (verticalStep x) one_to_eight [] in
  let moves := fold_left (horizontalStep x) one_to_eight moves in
  Ret moves.

End Rook.

Module Knight.

Definition dx : list Z := [2; 2; -2; -2; 1; 1; -1; -1].
Definition dy : list Z := [1; -1; 1; -1; 2; -2; 2; -2].

Definition step (x : ChessPiece) (moves : list Position) (d : Z * Z)
  : list Position :=
  let newRow := row (position x) + fst d in
  let newCol := column (position x) + snd d in
  if (newRow >=? 1) && (newRow <=? 8) && (newCol >=? ch "a") && (newCol <=? ch "h")
  then set_insert (mkPosition newCol newRow) moves
  else moves.

Definition legalMoves (x : ChessPiece) (board : PieceMap)
    (lastMovePos : Position) (enPassantAvailable : bool)
  : outcome (list Position) :=
  Ret (fold_left (step x) (combine dx dy) []).

End Knight.

(** The diagonal loop shared, as a copy, by [Bishop] and [Queen]. *)
Module Diagonal.

(** One of the four blocks of the loop body: the square is added when it
    is on the board and empty or held by the other colour; the flag tells
    whether the [break] was reached. *)
Definition probe (x : ChessPiece) (board : PieceMap) (p : Position)
    (moves : list Position) : outcome (list Position * bool) :=
  if in_bounds p then
    match board !! p with
    | None => Ret (set_insert p moves, false)
    | Some None => Crash NullDereference
    | Some (Some y) =>
        if negb (Color_eqb (color y) (color x))
        then Ret (set_insert p moves, true)
        else Ret (moves, false)
    end
  else Ret (moves, false).

(** The body for one [i]; [true] in the result leaves the loop. *)
Definition body (x : ChessPiece) (board : PieceMap) (i : Z)
    (moves : list Position) : outcome (list Position * bool) :=
  let c := column (position x) in
  let r := row (position x) in
  '(moves, stop) ← probe x board (mkPosition (c + i) (r + i)) moves;
  if stop : bool then Ret (moves, true) else
  '(moves, stop) ← probe x board (mkPosition (c - i) (r + i)) moves;
  if stop : bool then Ret (moves, true) else
  '(moves, stop) ← probe x board (mkPosition (c + i) (r - i)) moves;
  if stop : bool then Ret (moves, true) else
  probe x board (mkPosition (c - i) (r - i)) moves.

Fixpoint loop (x : ChessPiece) (board : PieceMap) (range : list Z)
    (moves : list Position) : outcome (list Position) :=
  match range with
  | [] => Ret moves
  | i :: range' =>
      '(moves, stop) ← body x board i moves;
      if stop : bool then Ret moves else loop x board range' moves
  end.

End Diagonal.

Module Bishop.

Definition legalMoves (x : ChessPiece) (board : PieceMap)
    (lastMovePos : Position) (enPassantAvailable : bool)
  : outcome (list Position) :=
  Diagonal.loop x board one_to_eight [].

End Bishop.

Module Queen.

Definition straightStep (x : ChessPiece) (moves : list Position) (i : Z)
  : list Position :=
  Rook.horizontalStep x (Rook.verticalStep x moves i) i.

Definition legalMoves (x : ChessPiece) (board : PieceMap)
    (lastMovePos : Position) (enPassantAvailable : bool)
  : outcome (list Position) :=
  let moves := fold_left (straightStep x) one_to_eight [] in
  Diagonal.loop x board one_to_eight moves.

End Queen.

Module King.

Definition offsets : list (Z * Z) :=
  [(-1, -1); (-1, 0); (-1, 1); (0, -1); (0, 1); (1, -1); (1, 0); (1, 1)].

Definition step (x : ChessPiece) (board : PieceMap)
    (acc : outcome (list Position)) (d : Z * Z) : outcome (list Position) :=
  moves ← acc;
  let newPos := mkPosition (column (position x) + fst d)
                           (row (position x) + snd d) in
  if in_bounds newPos then
    match board !! newPos with
    | None => Ret (set_insert newPos moves)
    | Some None => Crash NullDereference
    | Some (Some y) =>
        if negb (Color_eqb (color y) (color x))
        then Ret (set_insert newPos moves)
        else Ret moves
    end
  else Ret moves.

Definition legalMoves (x : ChessPiece) (board : PieceMap)
    (lastMovePos : Position) (enPassantAvailable : bool)
  : outcome (list Position) :=
  fold_left (step x board) offsets (Ret []).

End King.

(** The virtual call [piece->legalMoves(board, lastMovePos, enPassantAvailable)]. *)
Definition legalMoves (x : ChessPiece) (board : PieceMap)
    (lastMovePos : Position) (enPassantAvailable : bool)
  : outcome (list Position) :=
  match kind x with
  | Pawn => Pawn.legalMoves x board lastMovePos enPassantAvailable
  | Rook => Rook.legalMoves x board lastMovePos enPassantAvailable
  | Knight => Knight.legalMoves x board lastMovePos enPassantAvailable
  | Bishop => Bishop.legalMoves x board lastMovePos enPassantAvailable
  | Queen => Queen.legalMoves x board lastMovePos enPassantAvailable
  | King => King.legalMoves x board lastMovePos enPassantAvailable
  end.

(** ** The board *)

Record Board : Type := mkBoard {
  pieceMap : gmap Position (option ChessPiece);
  turn : Color;
  lastMovePos : Position;
  enPassantAvailable : bool;
  whiteCastleKingSide : bool;
  whiteCastleQueenSide : bool;
  blackCastleKingSide : bool;
  blackCastleQueenSide : bool
}.

Definition with_pieceMap (m : gmap Position (option ChessPiece)) (b : Board) : Board :=
  {| pieceMap := m; turn := turn b; lastMovePos := lastMovePos b;
     enPassantAvailable := enPassantAvailable b;
     whiteCastleKingSide := whiteCastleKingSide b;
     whiteCastleQueenSide := whiteCastleQueenSide b;
     blackCastleKingSide := blackCastleKingSide b;
     blackCastleQueenSide := blackCastleQueenSide b |}.

Definition with_turn (t : Color) (b : Board) : Board :=
  {| pieceMap := pieceMap b; turn := t; lastMovePos := lastMovePos b;
     enPassantAvailable := enPassantAvailable b;
     whiteCastleKingSide := whiteCastleKingSide b;
     whiteCastleQueenSide := whiteCastleQueenSide b;
     blackCastleKingSide := blackCastleKingSide b;
     blackCastleQueenSide := blackCastleQueenSide b |}.

Definition with_enPassantAvailable (e : bool) (b : Board) : Board :=
  {| pieceMap := pieceMap b; turn := turn b; lastMovePos := lastMovePos b;
     enPassantAvailable := e;
     whiteCastleKingSide := whiteCastleKingSide b;
     whiteCastleQueenSide := whiteCastleQueenSide b;
     blackCastleKingSide := blackCastleKingSide b;
     blackCastleQueenSide := blackCastleQueenSide b |}.

Definition opposite (c : Color) : Color :=
  match c with WHITE => BLACK | BLACK => WHITE end.

(** A freshly constructed piece: [hasMoved] is false. *)
Definition newPiece (k : Kind) (c : Color) (p : Position) : option ChessPiece :=
  Some {| kind := k; color := c; position := p; hasMoved := false |}.

Definition place (k : Kind) (c : Color) (col : ascii) (r : Z)
    (m : gmap Position (option ChessPiece)) : gmap Position (option ChessPiece) :=
  <[(ch col, r) := newPiece k c (ch col, r)]> m.

Definition files : list ascii :=
  ["a"; "b"; "c"; "d"; "e"; "f"; "g"; "h"]%char.

Definition backRank : list Kind :=
  [Rook; Knight; Bishop; Queen; King; Bishop; Knight; Rook].

Definition placeRank (c : Color) (r : Z) (ks : list Kind)
    (m : gmap Position (option ChessPiece)) : gmap Position (option ChessPiece) :=
  fold_left (fun m '(col, k) => place k c col r m) (combine files ks) m.

Definition initialize (m : gmap Position (option ChessPiece))
  : gmap Position (option ChessPiece) :=
  let m := placeRank WHITE 1 backRank m in
  let m := placeRank WHITE 2 (repeat Pawn 8) m in
  let m := placeRank BLACK 8 backRank m in
  placeRank BLACK 7 (repeat Pawn 8) m.

(** The constructor [Board::Board()]. *)
Definition newBoard : Board :=
  {| pieceMap := initialize ∅; turn := WHITE; lastMovePos := (ch "a", 1);
     enPassantAvailable := false;
     whiteCastleKingSide := true; whiteCastleQueenSide := true;
     blackCastleKingSide := true; blackCastleQueenSide := true |}.

Definition canCastleKingSide (b : Board) (c : Color) : bool :=
  match c with
  | WHITE => whiteCastleKingSide b
  | BLACK => blackCastleKingSide b
  end.

Definition canCastleQueenSide (b : Board) (c : Color) : bool :=
  match c with
  | WHITE => whiteCastleQueenSide b
  | BLACK => blackCastleQueenSide b
  end.

Definition updateCastlingRights (c : Color) (pieceType : string) (b : Board) : Board :=
  match c with
  | WHITE =>
      if String.eqb pieceType "king" then
        {| pieceMap := pieceMap b; turn := turn b; lastMovePos := lastMovePos b;
           enPassantAvailable := enPassantAvailable b;
           whiteCastleKingSide := false; whiteCastleQueenSide := false;
           blackCastleKingSide := blackCastleKingSide b;
           blackCastleQueenSide := blackCastleQueenSide b |}
      else b
  | BLACK =>
      if String.eqb pieceType "king" then
        {| pieceMap := pieceMap b; turn := turn b; lastMovePos := lastMovePos b;
           enPassantAvailable := enPassantAvailable b;
           whiteCastleKingSide := whiteCastleKingSide b;
           whiteCastleQueenSide := whiteCastleQueenSide b;
           blackCastleKingSide := false; blackCastleQueenSide := false |}
      else b
  end.

(** ** [Board::movePiece] *)

(** [s[i]] for a [std::string]: the character, a null character at
    [i = s.size()], and no defined value further out. *)
Definition char_at (s : string) (i : nat) : outcome Z :=
  match String.get i s with
  | Some c => Ret (ch c)
  | None => if Nat.eqb i (String.length s) then Ret 0 else Crash BadIndex
  end.

(** [Position(s[0], s[1] - '0')] *)
Definition squareOf (s : string) : outcome Position :=
  c ← char_at s 0;
  d ← char_at s 1;
  Ret (c, d - ch "0").

Definition isKingPiece (piece : ChessPiece) : bool :=
  String.eqb (toString piece)
    (match color piece with WHITE => "K" | BLACK => "k" end).

(** The body of either castling branch.  [rook = pieceMap[rookPos]] adds a
    null entry when the key is missing.  The king object is followed in
    [piece]; its map entry under [fromPos] is erased when the move is
    finished. *)
Definition castle (rookCol newKingCol : ascii) (pieceType : string)
    (b : Board) (piece : ChessPiece) (fromPos : Position) : Board * ChessPiece :=
  let rookPos : Position := (ch rookCol, row fromPos) in
  match pieceMap b !! rookPos with
  | None => (with_pieceMap (<[rookPos := None]> (pieceMap b)) b, piece)
  | Some None => (b, piece)
  | Some (Some rook) =>
      if String.eqb (toString rook)
           (match color piece with WHITE => "R" | BLACK => "r" end)
      then
        let newKingPos : Position := (ch newKingCol, row fromPos) in
        let piece := setPosition newKingPos piece in
        let rook := setPosition (ch "e", row fromPos) rook in
        let b := with_pieceMap (<[rookPos := Some rook]> (pieceMap b)) b in
        (updateCastlingRights (color piece) pieceType b, piece)
      else (b, piece)
  end.

(** Lines 567-585: the en-passant removal, the relocation of the piece and
    the bookkeeping.  When the square to clear is [fromPos] itself, the
    moving pawn is deleted and then used. *)
Definition finishMove (b : Board) (piece : ChessPiece) (fromPos toPos : Position)
    (enPassantCapture : bool) : outcome (bool * Board) :=
  m ← (if enPassantCapture then
         let capturedPawnPos : Position := (column toPos, row fromPos) in
         if Position_eqb capturedPawnPos fromPos then Crash UseAfterFree
         else Ret (delete capturedPawnPos (pieceMap b))
       else Ret (pieceMap b));
  let piece := markAsMoved (setPosition toPos piece) in
  let m := delete fromPos (<[toPos := Some piece]> m) in
  Ret (true,
       {| pieceMap := m; turn := opposite (turn b); lastMovePos := toPos;
          enPassantAvailable := false;
          whiteCastleKingSide := whiteCastleKingSide b;
          whiteCastleQueenSide := whiteCastleQueenSide b;
          blackCastleKingSide := blackCastleKingSide b;
          blackCastleQueenSide := blackCastleQueenSide b |}).

(** [movePiece] after the two strings have been turned into squares. *)
Definition movePieceAt (b : Board) (fromPos toPos : Position) : outcome (bool * Board) :=
  match pieceMap b !! fromPos with
  | None => Ret (false, b)
  | Some None => Crash NullDereference
  | Some (Some piece) =>
      let isPawn := match kind piece with Pawn => true | _ => false end in
      let isKing := isKingPiece piece in
      if isPawn then
        moves ← Pawn.legalMoves piece (pieceMap b) (lastMovePos b) (enPassantAvailable b);
        if negb (set_mem toPos moves) then Ret (false, b)
        else
          let enPassantCapture :=
            enPassantAvailable b
            && Position_eqb (lastMovePos b) (column toPos, row fromPos) in
          let b := with_enPassantAvailable (Z.abs (row toPos - row fromPos) =? 2) b in
          finishMove b piece fromPos toPos enPassantCapture
      else if isKing && canCastleKingSide b (color piece)
              && Position_eqb toPos (ch "g", row fromPos) then
        let '(b, piece) := castle "h" "f" "king" b piece fromPos in
        finishMove b piece fromPos toPos false
      else if isKing && canCastleQueenSide b (color piece)
              && Position_eqb toPos (ch "c", row fromPos) then
        let '(b, piece) := castle "a" "d" "queen" b piece fromPos in
        finishMove b piece fromPos toPos false
      else finishMove b piece fromPos toPos false
  end.

Definition movePiece (b : Board) (from to : string) : outcome (bool * Board) :=
  fromPos ← squareOf from;
  toPos ← squareOf to;
  movePieceAt b fromPos toPos.

(** The game loop's calls to [movePiece], one per pair of squares; the flag
    tells whether every call returned true. *)
Fixpoint play (b : Board) (moves : list (string * string)) : outcome (bool * Board) :=
  match moves with
  | [] => Ret (true, b)
  | (from, to) :: rest =>
      '(ok, b) ← movePiece b from to;
      '(oks, b) ← play b rest;
      Ret (ok && oks, b)
  end.

(** ** Check, checkmate and stalemate *)

(** The entries of the map in the order in which [for (entry : pieceMap)]
    visits them.  The C++ standard leaves that order open; the model takes
    the order of [map_to_list].  The loops of [isCheckmate] and
    [isStalemate] walk the entries found when the loop starts. *)
Definition entries (m : gmap Position (option ChessPiece))
  : list (Position * option ChessPiece) :=
  map_to_list m.

Fixpoint findKingIn (es : list (Position * option ChessPiece)) (c : Color)
  : outcome (option ChessPiece) :=
  match es with
  | [] => Ret None
  | (_, None) :: _ => Crash NullDereference
  | (_, Some x) :: es' =>
      if Color_eqb (color x) c
         && String.eqb (toString x) (match c with WHITE => "K" | BLACK => "k" end)
      then Ret (Some x)
      else findKingIn es' c
  end.

Definition findKing (b : Board) (c : Color) : outcome (option ChessPiece) :=
  findKingIn (entries (pieceMap b)) c.

Fixpoint attackedIn (b : Board) (es : list (Position * option ChessPiece))
    (c : Color) (kingPos : Position) : outcome bool :=
  match es with
  | [] => Ret false
  | (_, None) :: _ => Crash NullDereference
  | (_, Some x) :: es' =>
      if negb (Color_eqb (color x) c) then
        moves ← legalMoves x (pieceMap b) (lastMovePos b) (enPassantAvailable b);
        if set_mem kingPos moves then Ret true
        else attackedIn b es' c kingPos
      else attackedIn b es' c kingPos
  end.

Definition isInCheck (b : Board) (c : Color) : outcome bool :=
  k ← findKing b c;
  match k with
  | None => Crash NullDereference
  | Some king => attackedIn b (entries (pieceMap b)) c (position king)
  end.

(** [simulateMoveAndCheck].  Both [pieceMap[from]] and [pieceMap[to]] are
    [operator[]]: a missing key gets a null entry and yields the null
    pointer.  When [to] is [from], [capturedPiece] is the moving piece
    itself, with the position it has after the revert.

    [from] is a square held by the caller.  In [isCheckmate] and
    [isStalemate] the source passes [entry.first], a reference to the key
    inside the map node that [pieceMap.erase(from)] then frees, and the
    revert reads the key again through that reference (lines 706, 712,
    714).  What such a read yields is not fixed by the language; the
    definition follows the run in which it still yields the square, and
    what is proved of a returning trial move is proved of that run. *)
Definition simulateMoveAndCheck (b : Board) (from to : Position) (c : Color)
  : outcome (bool * Board) :=
  match pieceMap b !! from with
  | None | Some None => Crash NullDereference
  | Some (Some piece) =>
      let capturedPiece : option ChessPiece :=
        match pieceMap b !! to with
        | None => None
        | Some ptr => ptr
        end in
      let m := delete from (<[to := Some (setPosition to piece)]> (pieceMap b)) in
      inCheck ← isInCheck (with_pieceMap m b) c;
      let piece := setPosition from piece in
      let m := <[from := Some piece]> m in
      let m := <[to := if Position_eqb to from then Some piece else capturedPiece]> m in
      Ret (inCheck, with_pieceMap m b)
  end.

(** The loop over the moves of one piece; the first component tells
    whether a trial move came back without check, at which point the
    callers return false. *)
Fixpoint tryMoves (b : Board) (from : Position) (moves : list Position) (c : Color)
  : outcome (bool * Board) :=
  match moves with
  | [] => Ret (false, b)
  | move :: moves' =>
      '(inCheck, b') ← simulateMoveAndCheck b from move c;
      if negb inCheck then Ret (true, b')
      else tryMoves b' from moves' c
  end.

(** The loop over the pieces, the same text in [isCheckmate] and
    [isStalemate].  The source walks the live map while the trial moves
    erase and insert nodes; the definition walks the entries [es] found when
    the loop starts and looks at the pointers they held then. *)
Fixpoint tryPieces (b : Board) (es : list (Position * option ChessPiece)) (c : Color)
  : outcome (bool * Board) :=
  match es with
  | [] => Ret (true, b)
  | (_, None) :: _ => Crash NullDereference
  | (from, Some x) :: es' =>
      if Color_eqb (color x) c then
        moves ← legalMoves x (pieceMap b) (lastMovePos b) (enPassantAvailable b);
        '(escaped, b') ← tryMoves b from moves c;
        if escaped : bool then Ret (false, b')
        else tryPieces b' es' c
      else tryPieces b es' c
  end.

Definition isCheckmate (b : Board) (c : Color) : outcome (bool * Board) :=
  inCheck ← isInCheck b c;
  if negb inCheck then Ret (false, b)
  else tryPieces b (entries (pieceMap b)) c.

Definition isStalemate (b : Board) (c : Color) : outcome (bool * Board) :=
  inCheck ← isInCheck b c;
  if inCheck : bool then Ret (false, b)
  else tryPieces b (entries (pieceMap b)) c.

(** ** Vocabulary of the statements *)

(** The square of a file and a rank, e.g. [square "e" 4] for e4. *)
Definition square (file : ascii) (rank : Z) : Position := (ch file, rank).

(** A board with the two kings only, White to move. *)
Definition kingsOnly : Board :=
  {| pieceMap := place King WHITE "e" 1 (place King BLACK "e" 8 ∅);
     turn := WHITE; lastMovePos := (ch "a", 1);
     enPassantAvailable := false;
     whiteCastleKingSide := false; whiteCastleQueenSide := false;
     blackCastleKingSide := false; blackCastleQueenSide := false |}.

(** The move set of the piece standing on a square, as [movePiece] and
    [isInCheck] ask for it. *)
Definition movesFrom (b : Board) (p : Position) : outcome (list Position) :=
  match pieceMap b !! p with
  | Some (Some x) => legalMoves x (pieceMap b) (lastMovePos b) (enPassantAvailable b)
  | Some None => Crash NullDereference
  | None => Crash OutOfRange
  end.

(** Read-outs of a run, used to name the boards and pieces of the
    statements below. *)
Definition boardOf {A : Type} (o : outcome (A * Board)) : Board :=
  match o with
  | Ret (_, b) => b
  | Crash _ => newBoard
  end.

Definition pieceOn (b : Board) (p : Position) : ChessPiece :=
  match pieceMap b !! p with
  | Some (Some x) => x
  | _ => {| kind := Pawn; color := WHITE; position := p; hasMoved := false |}
  end.

Definition movesOf (o : outcome (list Position)) : list Position :=
  match o with
  | Ret l => l
  | Crash _ => []
  end.

(** What a run on [b] becomes when [b] has its turn set to [t]. *)
Definition retimed (t : Color) (o : outcome (bool * Board)) : outcome (bool * Board) :=
  match o with
  | Ret (r, b') => Ret (r, with_turn (if r then opposite t else t) b')
  | Crash f => Crash f
  end.

(** Every castling right that [b'] has, [b] has too. *)
Definition rights_within (b' b : Board) : Prop :=
  (whiteCastleKingSide b' = true -> whiteCastleKingSide b = true)
  /\ (whiteCastleQueenSide b' = true -> whiteCastleQueenSide b = true)
  /\ (blackCastleKingSide b' = true -> blackCastleKingSide b = true)
  /\ (blackCastleQueenSide b' = true -> blackCastleQueenSide b = true).

(** Squares written as file and rank. *)
Definition squares (l : list (ascii * Z)) : list Position :=
  map (fun '(file, rank) => square file rank) l.

(** [movePiece b from to] returns true and relocates the piece of kind [k]
    standing on [from], although [to] is not among that piece's moves. *)
Definition accepted_outside_moves (b : Board) (from to : string) (k : Kind) : Prop :=
  exists fromPos toPos piece moves b',
    squareOf from = Ret fromPos
    /\ squareOf to = Ret toPos
    /\ pieceMap b !! fromPos = Some (Some piece)
    /\ kind piece = k
    /\ legalMoves piece (pieceMap b) (lastMovePos b) (enPassantAvailable b) = Ret moves
    /\ set_mem toPos moves = false
    /\ movePiece b from to = Ret (true, b')
    /\ pieceMap b' !! toPos = Some (Some (markAsMoved (setPosition toPos piece)))
    /\ pieceMap b' !! fromPos = None.

(** Moves of the black queen that take every white piece but the king and
    end on a2. *)
Definition queenSweep : list (string * string) :=
  [("d8", "a1"); ("a1", "b1"); ("b1", "c1"); ("c1", "d1"); ("d1", "f1");
   ("f1", "g1"); ("g1", "h1"); ("h1", "h2"); ("h2", "g2"); ("g2", "f2");
   ("f2", "e2"); ("e2", "d2"); ("d2", "c2"); ("c2", "b2"); ("b2", "a2")]%string.

(** The square holds a piece of the given colour. *)
Definition held_by (b : Board) (c : Color) (p : Position) : bool :=
  match pieceMap b !! p with
  | Some (Some x) => Color_eqb (color x) c
  | _ => false
  end.

(** The moves that clear f1 and g1 for White. *)
Definition beforeCastling : list (string * string) :=
  [("g1", "f3"); ("g8", "f6"); ("e2", "e3"); ("e7", "e6");
   ("f1", "e2"); ("f8", "e7")]%string.

(** The board after the black pawn move e7-e5 made from the starting
    board, where White is to move. *)
Definition afterBlackFirst : Board := boardOf (movePiece newBoard "e7" "e5").

(** ** Further vocabulary *)

(** Conversion to [std::size_t] (64 bits). *)
Definition to_size_t (z : Z) : Z := z mod 2 ^ 64.

(** [std::hash<Position>]: [static_cast<std::size_t>(pos.column) * 10 + pos.row]. *)
Definition hash (p : Position) : Z :=
  to_size_t (to_size_t (to_size_t (column p) * 10) + to_size_t (row p)).

(** The values of a [char]. *)
Definition is_char (z : Z) : Prop := -128 <= z <= 127.

(** [q] is one of the eight neighbours of [p]. *)
Definition adjacent (p q : Position) : Prop :=
  Z.abs (column q - column p) <= 1 /\ Z.abs (row q - row p) <= 1 /\ q <> p.

(** [q] is a knight's jump away from [p]. *)
Definition knight_jump (p q : Position) : Prop :=
  (Z.abs (column q - column p) = 1 /\ Z.abs (row q - row p) = 2)
  \/ (Z.abs (column q - column p) = 2 /\ Z.abs (row q - row p) = 1).

(** The map has no entry under [p], or a piece of the other colour. *)
Definition free_or_opponent (board : PieceMap) (c : Color) (p : Position) : Prop :=
  board !! p = None
  \/ exists y, board !! p = Some (Some y) /\ color y <> c.

(** The test of one neighbour square in the loop body. *)
Definition King_admits (x : ChessPiece) (board : PieceMap) (d : Z * Z) (p : Position)
  : bool :=
  let newPos := mkPosition (column (position x) + fst d) (row (position x) + snd d) in
  in_bounds newPos && Position_eqb p newPos
  && match board !! newPos with
     | None => true
     | Some None => false
     | Some (Some y) => negb (Color_eqb (color y) (color x))
     end.

(** The test of one jump in the loop body of [Knight::legalMoves]. *)
Definition Knight_admits (x : ChessPiece) (p : Position) (d : Z * Z) : bool :=
  let newRow := row (position x) + fst d in
  let newCol := column (position x) + snd d in
  (newRow >=? 1) && (newRow <=? 8) && (newCol >=? ch "a") && (newCol <=? ch "h")
  && Position_eqb p (mkPosition newCol newRow).

(** [q] lies on a diagonal through [p], one to eight steps away. *)
Definition on_diagonal (p q : Position) : Prop :=
  Z.abs (column q - column p) = Z.abs (row q - row p)
  /\ 1 <= Z.abs (row q - row p) <= 8.

(** [q] is another square of the file of [p] with a rank from 1 to 8, or
    another square of the rank of [p] with a file from a to h. *)
Definition on_file_or_rank (p q : Position) : Prop :=
  q <> p
  /\ ((column q = column p /\ 1 <= row q <= 8)
      \/ (row q = row p /\ 97 <= column q <= 104)).

(** The four squares probed for one [i]. *)
Definition diagonal_targets (x : ChessPiece) (i : Z) : list Position :=
  let c := column (position x) in
  let r := row (position x) in
  [mkPosition (c + i) (r + i); mkPosition (c - i) (r + i);
   mkPosition (c + i) (r - i); mkPosition (c - i) (r - i)].

(** The three kinds of pawn move, for the pawn [x] and a target [p]:
    a step (or, for a pawn that has not moved, a double step) straight ahead
    onto squares without entry; *)
Definition Pawn_advances (x : ChessPiece) (board : PieceMap) (p : Position) : Prop :=
  let c := column (position x) in
  let r := row (position x) in
  let d := Pawn.direction (color x) in
  board !! (c, r + d) = None
  /\ (p = (c, r + d)
      \/ (p = (c, r + 2 * d) /\ hasMoved x = false /\ board !! (c, r + 2 * d) = None)).

(** a step ahead to a neighbouring file onto a piece of the other colour; *)
Definition Pawn_takes (x : ChessPiece) (board : PieceMap) (p : Position) : Prop :=
  let c := column (position x) in
  let r := row (position x) in
  let d := Pawn.direction (color x) in
  (p = mkPosition (c - 1) (r + d) \/ p = mkPosition (c + 1) (r + d))
  /\ exists y, board !! p = Some (Some y) /\ color y <> color x.

(** the en-passant square: offered to a pawn that has not moved, when the
    flag is set and the last move ended beside it on a pawn of the other
    colour that has not moved either. *)
Definition Pawn_passes (x : ChessPiece) (board : PieceMap) (l : Position) (e : bool)
    (p : Position) : Prop :=
  let c := column (position x) in
  let r := row (position x) in
  let d := Pawn.direction (color x) in
  e = true /\ hasMoved x = false
  /\ (l = mkPosition (c - 1) r \/ l = mkPosition (c + 1) r)
  /\ (exists a, board !! l = Some (Some a)
                /\ kind a = Pawn /\ color a <> color x /\ hasMoved a = false)
  /\ p = (column l, r + d).

(** The four castling rights of a board. *)
Definition rights (b : Board) : bool * bool * bool * bool :=
  (whiteCastleKingSide b, whiteCastleQueenSide b,
   blackCastleKingSide b, blackCastleQueenSide b).

(** No key of the map holds a null pointer. *)
Definition no_null_entries (m : PieceMap) : Prop :=
  forall p, m !! p <> Some None.

(** The calls that [main] makes on its board. *)
Inductive Call : Type :=
| CallMovePiece (from to : string)
| CallIsCheckmate (c : Color)
| CallIsStalemate (c : Color).

Definition call (b : Board) (k : Call) : outcome Board :=
  match k with
  | CallMovePiece from to => '(_, b') ← movePiece b from to; Ret b'
  | CallIsCheckmate c => '(_, b') ← isCheckmate b c; Ret b'
  | CallIsStalemate c => '(_, b') ← isStalemate b c; Ret b'
  end.

Fixpoint calls (b : Board) (ks : list Call) : outcome Board :=
  match ks with
  | [] => Ret b
  | k :: ks' => b' ← call b k; calls b' ks'
  end.

(** A piece as [initialize] creates it. *)
Definition newPieceAt (k : Kind) (c : Color) (p : Position) : ChessPiece :=
  {| kind := k; color := c; position := p; hasMoved := false |}.

(** After the rook h1 has left (h1-h5, rights untouched) and g1, f1 are
    cleared, the king goes e1-g1. *)
Definition rookGone : list (string * string) :=
  [("h1", "h5"); ("g1", "f3"); ("f1", "d3")]%string.

(** [b'] has the turn, the last move, the en-passant flag and the castling
    rights of [b]. *)
Definition same_frame (b b' : Board) : Prop :=
  turn b' = turn b
  /\ lastMovePos b' = lastMovePos b
  /\ enPassantAvailable b' = enPassantAvailable b
  /\ rights b' = rights b.

(** The piece [a] has the square [p] in its move set on the board [b]. *)
Definition attacks (b : Board) (a : ChessPiece) (p : Position) : Prop :=
  exists moves,
    legalMoves a (pieceMap b) (lastMovePos b) (enPassantAvailable b) = Ret moves
    /\ set_mem p moves = true.

(** The board that a run of calls ends on. *)
Definition boardAfter (o : outcome Board) : Board :=
  match o with
  | Ret b => b
  | Crash _ => newBoard
  end.

(** The first calls of a game: White's e2-e4, the query that follows it in
    [main], and Black's e7-e5. *)
Definition opening : list Call :=
  [CallMovePiece "e2" "e4"; CallIsCheckmate BLACK; CallMovePiece "e7" "e5"].

(** ** [Board::display] *)

(** The text that [std::cout << row] writes. *)
Definition decimal (z : Z) : string := NilZero.string_of_int (Z.to_int z).

Definition newline : string := String (ascii_of_nat 10) EmptyString.

(** The first and the last line. *)
Definition filesLine : string := "  a b c d e f g h" ++ newline.

(** What is written for one square: the symbol of the piece, or a dot,
    and a space.  A null pointer stored under the square is dereferenced. *)
Definition cell (m : PieceMap) (pos : Position) : outcome string :=
  match m !! pos with
  | Some (Some x) => Ret (toString x ++ " ")%string
  | Some None => Crash NullDereference
  | None => Ret ". "%string
  end.

(** The inner loop, over the files. *)
Fixpoint rowCells (m : PieceMap) (r : Z) (cols : list ascii) : outcome string :=
  match cols with
  | [] => Ret ""%string
  | col :: cols' =>
      s ← cell m (ch col, r);
      rest ← rowCells m r cols';
      Ret (s ++ rest)%string
  end.

(** The outer loop, over the ranks from 8 down to 1. *)
Fixpoint displayRows (m : PieceMap) (rows : list Z) : outcome string :=
  match rows with
  | [] => Ret ""%string
  | r :: rows' =>
      cells ← rowCells m r files;
      rest ← displayRows m rows';
      Ret (decimal r ++ " " ++ cells ++ decimal r ++ newline ++ rest)%string
  end.

Definition eight_to_one : list Z := [8; 7; 6; 5; 4; 3; 2; 1].

(** The text that [display] writes when it runs to its end. *)
Definition display (b : Board) : outcome string :=
  rows ← displayRows (pieceMap b) eight_to_one;
  Ret (filesLine ++ rows ++ filesLine)%string.

(** The character shown for a square. *)
Definition shown (m : PieceMap) (pos : Position) : ascii :=
  match m !! pos with
  | Some (Some x) =>
      match toString x with
      | String a _ => a
      | EmptyString => "."%char
      end
  | _ => "."%char
  end.

(** Where the character of a square stands in the text: 18 characters for
    the first line, 20 for each rank above, 2 for the rank's number, 2 for
    each file to the left. *)
Definition offsetOf (pos : Position) : nat :=
  Z.to_nat (18 + (8 - row pos) * 20 + 2 + 2 * (column pos - 97)).

(** The text of [display] for a board whose squares show [g]. *)
Fixpoint renderCells (g : Position -> ascii) (r : Z) (cols : list ascii) : string :=
  match cols with
  | [] => ""%string
  | col :: cols' => String (g (ch col, r)) (String " " (renderCells g r cols'))
  end.

Fixpoint renderRows (g : Position -> ascii) (rows : list Z) : string :=
  match rows with
  | [] => ""%string
  | r :: rows' =>
      (decimal r ++ " " ++ renderCells g r files ++ decimal r ++ newline
       ++ renderRows g rows')%string
  end.

(** The text of a run of [display]. *)
Definition textOf (o : outcome string) : string :=
  match o with
  | Ret s => s
  | Crash _ => EmptyString
  end.

(** * Properties *)

(** ** Equality of squares *)

Lemma Position_eqb_eq (p q : Position) : Position_eqb p q = true <-> p = q.
Proof.
  destruct p as [c r], q as [c' r']. unfold Position_eqb, column, row. simpl.
  rewrite andb_true_iff, !Z.eqb_eq. split.
  - intros [-> ->]. reflexivity.
  - intros [= -> ->]. split; reflexivity.
Qed.

Lemma Position_eqb_refl (p : Position) : Position_eqb p p = true.
Proof. apply Position_eqb_eq. reflexivity. Qed.

Lemma Position_eqb_neq (p q : Position) : Position_eqb p q = false <-> p <> q.
Proof.
  rewrite <- Position_eqb_eq. destruct (Position_eqb p q); split; congruence.
Qed.

(** ** The end of a move *)

Lemma finishMove_inv (b : Board) (piece : ChessPiece) (fromPos toPos : Position)
    (e r : bool) (b' : Board) :
  finishMove b piece fromPos toPos e = Ret (r, b') ->
  r = true
  /\ turn b' = opposite (turn b)
  /\ enPassantAvailable b' = false
  /\ lastMovePos b' = toPos
  /\ whiteCastleKingSide b' = whiteCastleKingSide b
  /\ whiteCastleQueenSide b' = whiteCastleQueenSide b
  /\ blackCastleKingSide b' = blackCastleKingSide b
  /\ blackCastleQueenSide b' = blackCastleQueenSide b.
Proof.
  unfold finishMove. destruct e; simpl.
  - destruct (Position_eqb _ fromPos); simpl; [discriminate |].
    intros [= <- <-]. simpl. repeat split.
  - intros [= <- <-]. simpl. repeat split.
Qed.

Lemma finishMove_plain (b : Board) (piece : ChessPiece) (fromPos toPos : Position) :
  exists b', finishMove b piece fromPos toPos false = Ret (true, b').
Proof. unfold finishMove. simpl. eexists. reflexivity. Qed.

Lemma updateCastlingRights_turn (c : Color) (s : string) (b : Board) :
  turn (updateCastlingRights c s b) = turn b.
Proof. unfold updateCastlingRights. destruct c, (String.eqb s "king"); reflexivity. Qed.

Lemma castle_turn (rc kc : ascii) (s : string) (b : Board) (piece : ChessPiece)
    (fromPos : Position) :
  turn (fst (castle rc kc s b piece fromPos)) = turn b.
Proof.
  unfold castle. destruct (pieceMap b !! _) as [[rook|]|]; simpl; try reflexivity.
  destruct (String.eqb _ _); simpl; [| reflexivity].
  rewrite updateCastlingRights_turn. reflexivity.
Qed.

(** Splits the branches of [movePieceAt] for a piece that is not a pawn. *)
Ltac split_branches :=
  repeat match goal with
    | |- context [if ?c then _ else _] => destruct c eqn:?
    | |- context [castle ?rc ?kc ?s ?b ?x ?p] =>
        let H := fresh "Hturn" in
        pose proof (castle_turn rc kc s b x p) as H;
        destruct (castle rc kc s b x p) as [? ?]; simpl in H
    end.

(** Every move that [movePiece] accepts ends with the en-passant flag
    cleared, the turn flipped and [lastMovePos] on the destination. *)
Lemma movePieceAt_success (b : Board) (fromPos toPos : Position) (b' : Board) :
  movePieceAt b fromPos toPos = Ret (true, b') ->
  enPassantAvailable b' = false
  /\ turn b' = opposite (turn b)
  /\ lastMovePos b' = toPos.
Proof.
  unfold movePieceAt.
  destruct (pieceMap b !! fromPos) as [[piece|]|]; try discriminate.
  destruct (kind piece);
    [ destruct (Pawn.legalMoves _ _ _ _) as [moves|]; simpl; [| discriminate];
      destruct (set_mem toPos moves); simpl; [| discriminate];
      intros H; apply finishMove_inv in H; simpl in H; tauto
    | .. ];
    split_branches; intros H; apply finishMove_inv in H; intuition congruence.
Qed.

(** A piece that is not a pawn is moved to whatever square is asked for:
    [movePiece] consults [legalMoves] for pawns only. *)
Lemma movePieceAt_non_pawn (b : Board) (fromPos toPos : Position) (piece : ChessPiece) :
  pieceMap b !! fromPos = Some (Some piece) ->
  kind piece <> Pawn ->
  exists b', movePieceAt b fromPos toPos = Ret (true, b').
Proof.
  intros Hp Hk. unfold movePieceAt. rewrite Hp.
  destruct (kind piece); [congruence | | | | |];
    split_branches; apply finishMove_plain.
Qed.

(** A null pointer stored under [fromPos] is dereferenced. *)
Lemma movePieceAt_null_entry (b : Board) (fromPos toPos : Position) :
  pieceMap b !! fromPos = Some None ->
  movePieceAt b fromPos toPos = Crash NullDereference.
Proof. intros H. unfold movePieceAt. rewrite H. reflexivity. Qed.

(** ** [movePiece] and the side to move *)

Lemma finishMove_with_turn (t : Color) (b : Board) (piece : ChessPiece)
    (fromPos toPos : Position) (e : bool) :
  finishMove (with_turn t b) piece fromPos toPos e
  = retimed t (finishMove b piece fromPos toPos e).
Proof.
  unfold finishMove. destruct e; simpl.
  - destruct (Position_eqb _ fromPos); reflexivity.
  - reflexivity.
Qed.

Lemma castle_with_turn (t : Color) (rc kc : ascii) (s : string) (b : Board)
    (piece : ChessPiece) (fromPos : Position) :
  castle rc kc s (with_turn t b) piece fromPos
  = (with_turn t (fst (castle rc kc s b piece fromPos)),
     snd (castle rc kc s b piece fromPos)).
Proof.
  unfold castle. simpl.
  destruct (pieceMap b !! _) as [[rook|]|]; simpl; try reflexivity.
  destruct (String.eqb (toString rook) _); simpl; [| reflexivity].
  unfold updateCastlingRights.
  destruct (color piece), (String.eqb s "king"); reflexivity.
Qed.

Lemma movePieceAt_with_turn (t : Color) (b : Board) (fromPos toPos : Position) :
  movePieceAt (with_turn t b) fromPos toPos = retimed t (movePieceAt b fromPos toPos).
Proof.
  unfold movePieceAt. simpl.
  destruct (pieceMap b !! fromPos) as [[piece|]|]; try reflexivity.
  assert (HK : canCastleKingSide (with_turn t b) (color piece)
               = canCastleKingSide b (color piece))
    by (destruct (color piece); reflexivity).
  assert (HQ : canCastleQueenSide (with_turn t b) (color piece)
               = canCastleQueenSide b (color piece))
    by (destruct (color piece); reflexivity).
  rewrite HK, HQ.
  destruct (kind piece);
    [ destruct (Pawn.legalMoves _ _ _ _) as [moves|]; simpl; [| reflexivity];
      destruct (set_mem toPos moves); simpl; [| reflexivity];
      apply (finishMove_with_turn t (with_enPassantAvailable _ b))
    | .. ];
    rewrite !castle_with_turn;
    repeat match goal with
      | |- context [if ?c then _ else _] => destruct c
      | |- context [castle ?rc ?kc ?s b ?x ?p] =>
          destruct (castle rc kc s b x p) as [? ?]; simpl
      end;
    apply finishMove_with_turn.
Qed.

(** ** Castling rights are only ever taken away *)

Lemma castle_rights (rc kc : ascii) (s : string) (b : Board) (piece : ChessPiece)
    (fromPos : Position) :
  rights_within (fst (castle rc kc s b piece fromPos)) b.
Proof.
  unfold castle, rights_within.
  destruct (pieceMap b !! _) as [[rook|]|]; simpl; try tauto.
  destruct (String.eqb _ _); simpl; [| tauto].
  unfold updateCastlingRights.
  destruct (color piece), (String.eqb s "king"); simpl; intuition discriminate.
Qed.

Lemma movePieceAt_rights (b : Board) (fromPos toPos : Position) (r : bool) (b' : Board) :
  movePieceAt b fromPos toPos = Ret (r, b') -> rights_within b' b.
Proof.
  unfold movePieceAt.
  destruct (pieceMap b !! fromPos) as [[piece|]|];
    [| discriminate | intros [= <- <-]; unfold rights_within; tauto].
  destruct (kind piece);
    [ destruct (Pawn.legalMoves _ _ _ _) as [moves|]; simpl; [| discriminate];
      destruct (set_mem toPos moves); simpl;
      [ intros H; apply finishMove_inv in H; simpl in H;
        destruct H as (_ & _ & _ & _ & H1 & H2 & H3 & H4);
        unfold rights_within; rewrite H1, H2, H3, H4; tauto
      | intros [= <- <-]; unfold rights_within; tauto ]
    | .. ];
    repeat match goal with
      | |- context [if ?c then _ else _] => destruct c
      | |- context [castle ?rc ?kc ?s b ?x ?p] =>
          let H := fresh "Hr" in
          pose proof (castle_rights rc kc s b x p) as H;
          destruct (castle rc kc s b x p) as [? ?]; simpl in H
      end;
    intros H; apply finishMove_inv in H;
    destruct H as (_ & _ & _ & _ & H1 & H2 & H3 & H4);
    unfold rights_within in *; rewrite H1, H2, H3, H4; tauto.
Qed.

(** ** Trial moves *)

(** A trial move to a square that has no entry leaves a null pointer under
    that key. *)
Lemma simulateMoveAndCheck_null_entry (b : Board) (from to : Position) (c : Color)
    (r : bool) (b' : Board) :
  pieceMap b !! to = None ->
  simulateMoveAndCheck b from to c = Ret (r, b') ->
  pieceMap b' !! to = Some None.
Proof.
  intros Hto. unfold simulateMoveAndCheck.
  destruct (pieceMap b !! from) as [[piece|]|] eqn:Hfrom; try discriminate.
  rewrite Hto.
  destruct (isInCheck _ c) as [inCheck|]; simpl; [| discriminate].
  intros [= <- <-]. simpl.
  assert (Hne : Position_eqb to from = false).
  { apply Position_eqb_neq. intros ->. congruence. }
  rewrite Hne. apply lookup_insert_eq.
Qed.

(** A trial move onto an occupied square puts both entries back. *)
Lemma simulateMoveAndCheck_occupied (b : Board) (from to : Position) (c : Color)
    (piece : ChessPiece) (ptr : option ChessPiece) (r : bool) (b' : Board) :
  pieceMap b !! from = Some (Some piece) ->
  position piece = from ->
  pieceMap b !! to = Some ptr ->
  to <> from ->
  simulateMoveAndCheck b from to c = Ret (r, b') ->
  b' = b.
Proof.
  intros Hfrom Hpos Hto Hne. unfold simulateMoveAndCheck.
  rewrite Hfrom, Hto.
  destruct (isInCheck _ c) as [inCheck|]; simpl; [| discriminate].
  intros [= <- <-].
  apply Position_eqb_neq in Hne. rewrite Hne.
  assert (Hsame : setPosition from piece = piece).
  { destruct piece as [k co p h]. simpl in Hpos. subst p. reflexivity. }
  rewrite Hsame.
  destruct b as [m t l e wk wq bk bq]. unfold with_pieceMap. simpl in *.
  f_equal. apply map_eq. intros k.
  apply Position_eqb_neq in Hne.
  destruct (decide (k = to)) as [-> | Hk1].
  - rewrite lookup_insert_eq. congruence.
  - rewrite lookup_insert_ne by congruence.
    destruct (decide (k = from)) as [-> | Hk2].
    + rewrite lookup_insert_eq. congruence.
    + rewrite lookup_insert_ne by congruence.
      rewrite lookup_delete_ne by congruence.
      rewrite lookup_insert_ne by congruence. reflexivity.
Qed.

(** ** The claims *)

(** Splits a conjunction and settles each part by running the code. *)
Ltac conjuncts := repeat match goal with |- _ /\ _ => split end.
Ltac by_evaluation := conjuncts; (vm_compute; reflexivity).

(** The sibling path: a pawn is refused a square outside its move set, and
    the board is left as it was. *)
Lemma movePieceAt_pawn_rejected (b : Board) (fromPos toPos : Position)
    (piece : ChessPiece) (moves : list Position) :
  pieceMap b !! fromPos = Some (Some piece) ->
  kind piece = Pawn ->
  legalMoves piece (pieceMap b) (lastMovePos b) (enPassantAvailable b) = Ret moves ->
  set_mem toPos moves = false ->
  movePieceAt b fromPos toPos = Ret (false, b).
Proof.
  intros Hp Hk Hm Hn. unfold movePieceAt. rewrite Hp.
  unfold legalMoves in Hm. rewrite Hk in *. rewrite Hm. simpl.
  rewrite Hn. reflexivity.
Qed.

(** C1 (fails on the code): on the starting board the rook a1, the knight
    b1, the bishop c1, the queen d1 and the king e1 are each moved by
    [movePiece] to a square that is not in the piece's move set; the call
    returns true and the board changes.  Only pawns are checked. *)
Theorem movePiece_accepts_unlisted_destination :
  accepted_outside_moves newBoard "a1" "b5" Rook
  /\ accepted_outside_moves newBoard "b1" "b5" Knight
  /\ accepted_outside_moves newBoard "c1" "c5" Bishop
  /\ accepted_outside_moves newBoard "d1" "e5" Queen
  /\ accepted_outside_moves newBoard "e1" "e5" King.
Proof.
  conjuncts; unfold accepted_outside_moves.
  - exists (square "a" 1), (square "b" 5), (pieceOn newBoard (square "a" 1)),
      (movesOf (movesFrom newBoard (square "a" 1))),
      (boardOf (movePiece newBoard "a1" "b5")).
    by_evaluation.
  - exists (square "b" 1), (square "b" 5), (pieceOn newBoard (square "b" 1)),
      (movesOf (movesFrom newBoard (square "b" 1))),
      (boardOf (movePiece newBoard "b1" "b5")).
    by_evaluation.
  - exists (square "c" 1), (square "c" 5), (pieceOn newBoard (square "c" 1)),
      (movesOf (movesFrom newBoard (square "c" 1))),
      (boardOf (movePiece newBoard "c1" "c5")).
    by_evaluation.
  - exists (square "d" 1), (square "e" 5), (pieceOn newBoard (square "d" 1)),
      (movesOf (movesFrom newBoard (square "d" 1))),
      (boardOf (movePiece newBoard "d1" "e5")).
    by_evaluation.
  - exists (square "e" 1), (square "e" 5), (pieceOn newBoard (square "e" 1)),
      (movesOf (movesFrom newBoard (square "e" 1))),
      (boardOf (movePiece newBoard "e1" "e5")).
    by_evaluation.
Qed.

(** C2 (fails on the code): with only the two kings on the board,
    [isStalemate(WHITE)] tries the king's move e1-d1, returns false and
    leaves a null pointer stored under d1, a key the map did not have.  A
    second call, or a call of [isCheckmate], on the board so left
    dereferences that null pointer instead of returning false again. *)
Theorem isStalemate_leaves_null_entry :
  exists b',
    isStalemate kingsOnly WHITE = Ret (false, b')
    /\ pieceMap kingsOnly !! square "d" 1 = None
    /\ pieceMap b' !! square "d" 1 = Some None
    /\ pieceMap b' <> pieceMap kingsOnly
    /\ isStalemate b' WHITE = Crash NullDereference
    /\ isCheckmate b' WHITE = Crash NullDereference.
Proof.
  exists (boardOf (isStalemate kingsOnly WHITE)).
  conjuncts; try (vm_compute; reflexivity).
  intros H. apply (f_equal (fun m => m !! square "d" 1)) in H.
  vm_compute in H. discriminate H.
Qed.

(** The same happens on a board reached through [movePiece] alone. *)
Lemma isStalemate_after_queenSweep :
  exists b b',
    play newBoard queenSweep = Ret (true, b)
    /\ isStalemate b WHITE = Ret (false, b')
    /\ pieceMap b !! square "d" 1 = None
    /\ pieceMap b' !! square "d" 1 = Some None
    /\ isStalemate b' WHITE = Crash NullDereference.
Proof.
  set (b := boardOf (play newBoard queenSweep)).
  exists b, (boardOf (isStalemate b WHITE)).
  by_evaluation.
Qed.

(** C3 (fails on the code): the pawn move e2-e4 from the starting board is
    accepted and advances the pawn two ranks, and the flag
    [enPassantAvailable] is false afterwards. *)
Theorem double_push_leaves_flag_false :
  exists pawn b',
    pieceMap newBoard !! square "e" 2 = Some (Some pawn)
    /\ kind pawn = Pawn
    /\ movePiece newBoard "e2" "e4" = Ret (true, b')
    /\ pieceMap b' !! square "e" 4
       = Some (Some (markAsMoved (setPosition (square "e" 4) pawn)))
    /\ Z.abs (row (square "e" 4) - row (square "e" 2)) = 2
    /\ enPassantAvailable b' = false.
Proof.
  exists (pieceOn newBoard (square "e" 2)), (boardOf (movePiece newBoard "e2" "e4")).
  by_evaluation.
Qed.

(** C4 (fails on the code): on the starting board every square next to
    the white rook a1, bishop c1 and queen d1 holds a white piece, so each
    of their rays is blocked at once.  The rook is still given the whole
    a-file and first rank, the bishop the squares behind the pawns b2 and d2,
    and the queen both. *)
Theorem sliders_pass_blocking_pieces :
  forallb (held_by newBoard WHITE)
    (squares [("a", 2); ("b", 1); ("b", 2); ("d", 2); ("c", 1); ("c", 2);
              ("e", 1); ("e", 2)]%char) = true
  /\ movesFrom newBoard (square "a" 1)
     = Ret (squares [("a", 2); ("a", 3); ("a", 4); ("a", 5); ("a", 6); ("a", 7);
                     ("a", 8); ("b", 1); ("c", 1); ("d", 1); ("e", 1); ("f", 1);
                     ("g", 1); ("h", 1)]%char)
  /\ movesFrom newBoard (square "c" 1)
     = Ret (squares [("a", 3); ("e", 3); ("f", 4); ("g", 5); ("h", 6)]%char)
  /\ movesFrom newBoard (square "d" 1)
     = Ret (squares [("a", 1); ("a", 4); ("b", 1); ("b", 3); ("c", 1); ("d", 2);
                     ("d", 3); ("d", 4); ("d", 5); ("d", 6); ("d", 7); ("d", 8);
                     ("e", 1); ("f", 1); ("f", 3); ("g", 1); ("g", 4); ("h", 1);
                     ("h", 5)]%char).
Proof.
  by_evaluation.
Qed.

(** C5 (fails on the code): after e2-e3, e7-e6 and the king move e1-e2,
    all accepted, the white king has moved and both white castling rights
    are still true. *)
Theorem king_move_keeps_castling_rights :
  exists b king,
    play newBoard [("e2", "e3"); ("e7", "e6"); ("e1", "e2")]%string = Ret (true, b)
    /\ pieceMap b !! square "e" 2 = Some (Some king)
    /\ kind king = King
    /\ color king = WHITE
    /\ hasMoved king = true
    /\ whiteCastleKingSide b = true
    /\ whiteCastleQueenSide b = true.
Proof.
  set (b := boardOf (play newBoard
                       [("e2", "e3"); ("e7", "e6"); ("e1", "e2")]%string)).
  exists b, (pieceOn b (square "e" 2)).
  by_evaluation.
Qed.

(** C6 (fails on the code): with the white king on e1, the white rook on
    h1, f1 and g1 empty and the king-side right held, [movePiece] e1-g1
    returns true and puts the king on g1; the rook is still stored under
    h1, f1 stays empty, and the rook's recorded position is e1. *)
Theorem castling_leaves_rook_in_corner :
  exists b king rook b',
    play newBoard beforeCastling = Ret (true, b)
    /\ pieceMap b !! square "e" 1 = Some (Some king)
    /\ toString king = "K"%string
    /\ pieceMap b !! square "h" 1 = Some (Some rook)
    /\ toString rook = "R"%string
    /\ pieceMap b !! square "f" 1 = None
    /\ pieceMap b !! square "g" 1 = None
    /\ whiteCastleKingSide b = true
    /\ movePiece b "e1" "g1" = Ret (true, b')
    /\ pieceMap b' !! square "g" 1
       = Some (Some (markAsMoved (setPosition (square "g" 1) king)))
    /\ pieceMap b' !! square "e" 1 = None
    /\ pieceMap b' !! square "f" 1 = None
    /\ pieceMap b' !! square "h" 1 = Some (Some (setPosition (square "e" 1) rook))
    /\ position (setPosition (square "e" 1) rook) <> square "h" 1.
Proof.
  set (b := boardOf (play newBoard beforeCastling)).
  exists b, (pieceOn b (square "e" 1)), (pieceOn b (square "h" 1)),
    (boardOf (movePiece b "e1" "g1")).
  conjuncts; try (vm_compute; reflexivity).
  vm_compute. discriminate.
Qed.

(** C7 (fails on the code): after a2-a3, d7-d5, a3-a4, d5-d4 and the
    double step e2-e4, the black pawn d4 stands next to the white pawn that
    has just moved to e4.  The black pawn's move set is d3 alone, with the
    en-passant flag as the board holds it (false) and with the flag forced
    to true; [movePiece] d4-e3 returns false and the white pawn stays on
    e4. *)
Theorem en_passant_is_never_offered :
  exists b black white,
    play newBoard
      [("a2", "a3"); ("d7", "d5"); ("a3", "a4"); ("d5", "d4"); ("e2", "e4")]%string
    = Ret (true, b)
    /\ turn b = BLACK
    /\ lastMovePos b = square "e" 4
    /\ pieceMap b !! square "d" 4 = Some (Some black)
    /\ toString black = "p"%string
    /\ pieceMap b !! square "e" 4 = Some (Some white)
    /\ toString white = "P"%string
    /\ enPassantAvailable b = false
    /\ movesFrom b (square "d" 4) = Ret [square "d" 3]
    /\ legalMoves black (pieceMap b) (lastMovePos b) true = Ret [square "d" 3]
    /\ movePiece b "d4" "e3" = Ret (false, b).
Proof.
  set (b := boardOf (play newBoard
                       [("a2", "a3"); ("d7", "d5"); ("a3", "a4"); ("d5", "d4");
                        ("e2", "e4")]%string)).
  exists b, (pieceOn b (square "d" 4)), (pieceOn b (square "e" 4)).
  by_evaluation.
Qed.

(** C8 (fails on the code): on the starting board the move set of the
    white knight b1 is a3, c3 and d2, and d2 holds a white pawn. *)
Theorem knight_moves_onto_own_piece :
  exists knight pawn,
    pieceMap newBoard !! square "b" 1 = Some (Some knight)
    /\ toString knight = "N"%string
    /\ pieceMap newBoard !! square "d" 2 = Some (Some pawn)
    /\ color pawn = color knight
    /\ movesFrom newBoard (square "b" 1)
       = Ret [square "a" 3; square "c" 3; square "d" 2].
Proof.
  exists (pieceOn newBoard (square "b" 1)), (pieceOn newBoard (square "d" 2)).
  by_evaluation.
Qed.

(** The knight's moves do not depend on the board at all. *)
Lemma Knight_legalMoves_any_board (x : ChessPiece) (board board' : PieceMap)
    (l l' : Position) (e e' : bool) :
  Knight.legalMoves x board l e = Knight.legalMoves x board' l' e'.
Proof. reflexivity. Qed.

(** Nor do the rook's. *)
Lemma Rook_legalMoves_any_board (x : ChessPiece) (board board' : PieceMap)
    (l l' : Position) (e e' : bool) :
  Rook.legalMoves x board l e = Rook.legalMoves x board' l' e'.
Proof. reflexivity. Qed.

(** When the map has no entry at all for the square named by [from]
    ([find] returns [end]), [movePiece] returns false and the board (map,
    turn, last move, en-passant flag, castling rights) is the one it was
    given. *)
Lemma movePiece_from_empty_square (b : Board) (from to : string)
    (fromPos toPos : Position) :
  squareOf from = Ret fromPos ->
  squareOf to = Ret toPos ->
  pieceMap b !! fromPos = None ->
  movePiece b from to = Ret (false, b).
Proof.
  intros Hf Ht Hnone. unfold movePiece. rewrite Hf, Ht. simpl.
  unfold movePieceAt. rewrite Hnone. reflexivity.
Qed.

Lemma movePiece_from_empty_square_witness :
  movePiece newBoard "e4" "e5" = Ret (false, newBoard).
Proof.
  apply (movePiece_from_empty_square newBoard "e4" "e5" (square "e" 4) (square "e" 5)).
  - vm_compute. reflexivity.
  - vm_compute. reflexivity.
  - vm_compute. reflexivity.
Defined.

(** C9 (fails on the code): a square that no piece occupies can still have
    an entry in the map, a null pointer, and then [movePiece] from it does
    not return false.  After h1-h5, g1-f3, f1-d3 and e1-g1, all accepted,
    the rook stands on h5 and the castling branch has stored a null pointer
    under h1; [movePiece] from h1 finds that entry, passes the test of line
    512 and dereferences the pointer, whatever the target. *)
Theorem movePiece_from_null_entry_crashes :
  exists b rook,
    play newBoard (rookGone ++ [("e1", "g1")%string]) = Ret (true, b)
    /\ pieceMap b !! square "h" 5 = Some (Some rook)
    /\ toString rook = "R"%string
    /\ pieceMap b !! square "h" 1 = Some None
    /\ movePiece b "h1" "h2" = Crash NullDereference
    /\ forall toPos : Position,
         movePieceAt b (square "h" 1) toPos = Crash NullDereference.
Proof.
  set (b := boardOf (play newBoard (rookGone ++ [("e1", "g1")%string]))).
  exists b, (pieceOn b (square "h" 5)).
  do 5 (split; [vm_compute; reflexivity |]).
  intros toPos. apply movePieceAt_null_entry. vm_compute. reflexivity.
Qed.

(** C10: [movePiece] never looks at [turn].  A move that is accepted flips
    the turn once, and the same move is accepted, with the same resulting
    board up to the flipped turn, whichever side the board says is to
    move. *)
Theorem movePiece_ignores_turn (b : Board) (from to : string) (b' : Board) :
  movePiece b from to = Ret (true, b') ->
  turn b' = opposite (turn b)
  /\ forall t : Color,
       movePiece (with_turn t b) from to = Ret (true, with_turn (opposite t) b').
Proof.
  unfold movePiece.
  destruct (squareOf from) as [fromPos|]; simpl; [| discriminate].
  destruct (squareOf to) as [toPos|]; simpl; [| discriminate].
  intros H. split.
  - apply movePieceAt_success in H. tauto.
  - intros t. rewrite movePieceAt_with_turn, H. reflexivity.
Qed.

Lemma movePiece_ignores_turn_witness :
  turn newBoard = WHITE
  /\ (color <$> default None (pieceMap newBoard !! square "e" 7)) = Some BLACK
  /\ turn afterBlackFirst = opposite (turn newBoard)
  /\ forall t : Color,
       movePiece (with_turn t newBoard) "e7" "e5"
       = Ret (true, with_turn (opposite t) afterBlackFirst).
Proof.
  split; [reflexivity |].
  split; [vm_compute; reflexivity |].
  apply (movePiece_ignores_turn newBoard "e7" "e5" afterBlackFirst).
  vm_compute. reflexivity.
Defined.

(** * Further properties *)

(** ** The order and the hash of squares *)

(** X1: [operator<] of [Position] is a strict total order, as [std::set] needs:
    it is irreflexive and transitive, and of two squares exactly one is
    smaller unless they are equal. *)
Theorem Position_ltb_strict_total (p q r : Position) :
  Position_ltb p p = false
  /\ (Position_ltb p q = true -> Position_ltb q r = true -> Position_ltb p r = true)
  /\ (Position_ltb p q = true -> Position_ltb q p = false /\ Position_eqb p q = false)
  /\ (Position_ltb p q = false -> Position_ltb q p = false -> p = q).
Proof.
  destruct p as [c1 r1], q as [c2 r2], r as [c3 r3].
  unfold Position_ltb, Position_eqb, column, row; simpl.
  repeat split; intros;
    repeat match goal with
      | H : _ || _ = true |- _ => apply orb_true_iff in H; destruct H
      | H : _ && _ = true |- _ => apply andb_true_iff in H; destruct H
      | H : _ || _ = false |- _ => apply orb_false_iff in H; destruct H
      | H : _ && _ = false |- _ => apply andb_false_iff in H; destruct H
      | H : (_ <? _) = true |- _ => apply Z.ltb_lt in H
      | H : (_ <? _) = false |- _ => apply Z.ltb_ge in H
      | H : (_ =? _) = true |- _ => apply Z.eqb_eq in H
      | H : (_ =? _) = false |- _ => apply Z.eqb_neq in H
      end;
    try (f_equal; lia);
    repeat match goal with
      | |- _ || _ = true => apply orb_true_iff
      | |- _ || _ = false => apply orb_false_iff; split
      | |- _ && _ = false => apply andb_false_iff
      end;
    rewrite ?Z.ltb_lt, ?Z.ltb_ge, ?Z.eqb_eq, ?Z.eqb_neq, ?andb_true_iff,
      ?Z.ltb_lt, ?Z.eqb_eq; try lia.
Qed.

Lemma in_bounds_range (p : Position) :
  in_bounds p = true <-> 97 <= column p <= 104 /\ 1 <= row p <= 8.
Proof.
  unfold in_bounds. change (ch "a") with 97. change (ch "h") with 104.
  rewrite !andb_true_iff, !Z.geb_le, !Z.leb_le. lia.
Qed.

(** X2: Two squares of the board with the same hash are the same square. *)
Theorem hash_injective_on_board (p q : Position) :
  in_bounds p = true -> in_bounds q = true -> hash p = hash q -> p = q.
Proof.
  rewrite !in_bounds_range. destruct p as [c1 r1], q as [c2 r2].
  unfold hash, to_size_t, column, row; simpl. intros Hp Hq.
  rewrite !(Z.mod_small c1), !(Z.mod_small c2), !(Z.mod_small r1), !(Z.mod_small r2),
    !(Z.mod_small (c1 * 10)), !(Z.mod_small (c2 * 10)),
    !(Z.mod_small (c1 * 10 + r1)), !(Z.mod_small (c2 * 10 + r2)) by lia.
  intros H. f_equal; lia.
Qed.

Lemma hash_injective_on_board_witness :
  square "e" 4 = square "e" 4.
Proof.
  apply (hash_injective_on_board (square "e" 4) (square "e" 4));
    vm_compute; reflexivity.
Defined.

(** ** Sets of squares *)

Lemma Position_eqb_sym (p q : Position) : Position_eqb p q = Position_eqb q p.
Proof.
  unfold Position_eqb. rewrite (Z.eqb_sym (column p)), (Z.eqb_sym (row p)).
  reflexivity.
Qed.

(** After [moves.insert(q)] the set holds [q] and what it held before. *)
Lemma set_mem_insert (p q : Position) (s : list Position) :
  set_mem p (set_insert q s) = Position_eqb p q || set_mem p s.
Proof.
  unfold set_mem. induction s as [| a s IH]; simpl.
  - reflexivity.
  - destruct (Position_ltb q a); simpl; [reflexivity |].
    destruct (Position_eqb q a) eqn:Hqa; simpl.
    + apply Position_eqb_eq in Hqa. subst a.
      destruct (Position_eqb p q); reflexivity.
    + rewrite IH. destruct (Position_eqb p q), (Position_eqb p a); reflexivity.
Qed.

Lemma to_char_id (z : Z) : is_char z -> to_char z = z.
Proof.
  unfold is_char, to_char. intros H. rewrite Z.mod_small by lia. lia.
Qed.

Lemma to_char_range (z : Z) : is_char (to_char z).
Proof.
  unfold is_char, to_char.
  pose proof (Z.mod_pos_bound (z + 128) 256 ltac:(lia)). lia.
Qed.

(** A value one step (up to eight steps) outside the [char] range does not
    wrap into the files a-h. *)
Lemma to_char_on_board (z : Z) :
  -136 <= z <= 135 -> 97 <= to_char z <= 104 -> to_char z = z.
Proof.
  unfold to_char. intros Hz H.
  destruct (Z_lt_le_dec z (-128)) as [Hlo | Hlo].
  - replace (z + 128) with ((z + 384) + (-1) * 256) in H by lia.
    rewrite Z.mod_add, Z.mod_small in H by lia. lia.
  - destruct (Z_lt_le_dec z 128) as [Hhi | Hhi].
    + rewrite Z.mod_small by lia. lia.
    + replace (z + 128) with ((z - 128) + 1 * 256) in H by lia.
      rewrite Z.mod_add, Z.mod_small in H by lia. lia.
Qed.

(** ** [King::legalMoves] *)

Lemma King_step_crash (x : ChessPiece) (board : PieceMap) (ds : list (Z * Z)) (f : Fault) :
  fold_left (King.step x board) ds (Crash f) = Crash f.
Proof. induction ds as [| d ds IH]; simpl; [reflexivity | exact IH]. Qed.

Lemma King_fold (x : ChessPiece) (board : PieceMap) (ds : list (Z * Z))
    (acc moves : list Position) (p : Position) :
  fold_left (King.step x board) ds (Ret acc) = Ret moves ->
  set_mem p moves = set_mem p acc || existsb (fun d => King_admits x board d p) ds.
Proof.
  revert acc. induction ds as [| d ds IH]; simpl; intros acc H.
  - injection H as <-. rewrite orb_false_r. reflexivity.
  - remember (King.step x board (Ret acc) d) as st eqn:Hst.
    unfold King.step in Hst. simpl in Hst. unfold King_admits at 1.
    destruct (in_bounds _) eqn:Hb; simpl.
    + destruct (board !! _) as [[y|]|] eqn:Hl.
      * destruct (negb (Color_eqb (color y) (color x))); subst st.
        -- apply IH in H. rewrite H, set_mem_insert.
           rewrite andb_true_r.
           destruct (Position_eqb p _), (set_mem p acc); reflexivity.
        -- apply IH in H. rewrite H, andb_false_r. reflexivity.
      * subst st. rewrite King_step_crash in H. discriminate.
      * subst st. apply IH in H. rewrite H, set_mem_insert. rewrite andb_true_r.
        destruct (Position_eqb p _), (set_mem p acc); reflexivity.
    + subst st. apply IH in H. rewrite H. reflexivity.
Qed.

Lemma Color_eqb_eq (a b : Color) : Color_eqb a b = true <-> a = b.
Proof. destruct a, b; simpl; split; congruence. Qed.

Lemma Color_eqb_neq (a b : Color) : Color_eqb a b = false <-> a <> b.
Proof. destruct a, b; simpl; split; congruence. Qed.

(** X3: The king's move set is exactly the neighbour squares that lie on the
    board and hold no entry or a piece of the other colour: the king is
    never sent off the board, onto its own square or onto a piece of its own
    colour. *)
Theorem King_legalMoves_spec (x : ChessPiece) (board : PieceMap) (l : Position)
    (e : bool) (moves : list Position) (p : Position) :
  is_char (column (position x)) ->
  King.legalMoves x board l e = Ret moves ->
  set_mem p moves = true
  <-> in_bounds p = true
      /\ adjacent (position x) p
      /\ free_or_opponent board (color x) p.
Proof.
  intros Hc H. unfold King.legalMoves in H.
  rewrite (King_fold _ _ _ _ _ p H). clear H.
  change (set_mem p []) with false. rewrite orb_false_l.
  destruct (position x) as [c r] eqn:Hpos. unfold column, row in Hc. simpl in Hc.
  unfold is_char in Hc.
  split.
  - intros Hex. apply existsb_exists in Hex. destruct Hex as [d [Hd Ha]].
    unfold King_admits in Ha. rewrite Hpos in Ha. unfold column, row in Ha. simpl in Ha.
    apply andb_true_iff in Ha. destruct Ha as [Ha Hfree].
    apply andb_true_iff in Ha. destruct Ha as [Hb Heq].
    apply Position_eqb_eq in Heq. subst p.
    assert (Hcol : to_char (c + fst d) = c + fst d).
    { apply in_bounds_range in Hb. unfold mkPosition, column in Hb. simpl in Hb.
      apply to_char_on_board; [| lia].
      unfold King.offsets in Hd. simpl in Hd.
      repeat (destruct Hd as [<- | Hd]; [simpl; lia |]). contradiction. }
    split; [exact Hb |]. split.
    + unfold adjacent, mkPosition, column, row. simpl. rewrite Hcol.
      unfold King.offsets in Hd. simpl in Hd.
      repeat (destruct Hd as [<- | Hd];
              [simpl; repeat split; try lia; intros [= ? ?]; lia |]).
      contradiction.
    + unfold free_or_opponent.
      destruct (board !! _) as [[y|]|]; [| discriminate | left; reflexivity].
      right. exists y. split; [reflexivity |].
      apply Color_eqb_neq. destruct (Color_eqb _ _); [discriminate | reflexivity].
  - intros (Hb & (Hdc & Hdr & Hne) & Hfree).
    destruct p as [pc pr]. unfold column, row in Hdc, Hdr. simpl in Hdc, Hdr.
    pose proof (proj1 (in_bounds_range (pc, pr)) Hb) as Hr.
    unfold column, row in Hr. simpl in Hr.
    apply existsb_exists. exists (pc - c, pr - r). split.
    + assert (Hcases : (pc - c = -1 \/ pc - c = 0 \/ pc - c = 1)
                       /\ (pr - r = -1 \/ pr - r = 0 \/ pr - r = 1)) by lia.
      assert (Hnz : ~ (pc - c = 0 /\ pr - r = 0)).
      { intros [? ?]. apply Hne. f_equal; lia. }
      unfold King.offsets.
      destruct Hcases as [[E1 | [E1 | E1]] [E2 | [E2 | E2]]];
        rewrite E1, E2; simpl; tauto.
    + unfold King_admits. rewrite Hpos. unfold column, row. simpl.
      replace (c + (pc - c)) with pc by lia.
      replace (r + (pr - r)) with pr by lia.
      unfold mkPosition. rewrite (to_char_id pc) by (unfold is_char; lia).
      rewrite Hb, Position_eqb_refl. simpl.
      destruct Hfree as [-> | [y [-> Hy]]]; [reflexivity |].
      apply Color_eqb_neq in Hy. rewrite Hy. reflexivity.
Qed.

Lemma King_legalMoves_spec_witness :
  set_mem (square "d" 1) [square "d" 1; square "d" 2; square "e" 2;
                          square "f" 1; square "f" 2] = true
  <-> in_bounds (square "d" 1) = true
      /\ adjacent (position (pieceOn kingsOnly (square "e" 1))) (square "d" 1)
      /\ free_or_opponent (pieceMap kingsOnly)
           (color (pieceOn kingsOnly (square "e" 1))) (square "d" 1).
Proof.
  apply (King_legalMoves_spec (pieceOn kingsOnly (square "e" 1))
           (pieceMap kingsOnly) (lastMovePos kingsOnly) false).
  - vm_compute. split; discriminate.
  - vm_compute. reflexivity.
Defined.

(** ** [Knight::legalMoves] *)

Lemma Knight_fold (x : ChessPiece) (p : Position) (ds : list (Z * Z))
    (acc : list Position) :
  set_mem p (fold_left (Knight.step x) ds acc)
  = set_mem p acc || existsb (Knight_admits x p) ds.
Proof.
  revert acc. induction ds as [| d ds IH]; simpl; intros acc.
  - rewrite orb_false_r. reflexivity.
  - rewrite IH. unfold Knight.step, Knight_admits.
    destruct (_ && _ && _ && _); simpl.
    + rewrite set_mem_insert.
      destruct (Position_eqb p _), (set_mem p acc); reflexivity.
    + reflexivity.
Qed.

(** X4: A knight is always given a move set, and the set holds exactly the
    squares of the board that are a knight's jump away from the knight's
    recorded position, whatever the board holds. *)
Theorem Knight_legalMoves_spec (x : ChessPiece) (board : PieceMap) (l : Position)
    (e : bool) :
  exists moves,
    Knight.legalMoves x board l e = Ret moves
    /\ forall p, set_mem p moves = true
                 <-> in_bounds p = true /\ knight_jump (position x) p.
Proof.
  destruct x as [k co [c r] hm].
  eexists. split; [reflexivity |]. intros p.
  rewrite Knight_fold. change (set_mem p []) with false. rewrite orb_false_l.
  cbn [position]. destruct p as [pc pr].
  rewrite in_bounds_range. unfold knight_jump, column, row. simpl fst. simpl snd.
  split.
  - intros Hex. apply existsb_exists in Hex. destruct Hex as [d [Hd Ha]].
    unfold Knight_admits, column, row in Ha. cbn [position fst snd] in Ha.
    change (ch "a") with 97 in Ha. change (ch "h") with 104 in Ha.
    rewrite !andb_true_iff, !Z.geb_le, !Z.leb_le in Ha.
    destruct Ha as [[[[H1 H2] H3] H4] Heq].
    apply Position_eqb_eq in Heq. unfold mkPosition in Heq.
    rewrite to_char_id in Heq by (unfold is_char; lia).
    injection Heq as -> ->.
    unfold Knight.dx, Knight.dy in Hd. simpl in Hd.
    repeat (destruct Hd as [<- | Hd]; [simpl in *; lia |]). contradiction.
  - intros [[Hpc Hpr] Hj].
    apply existsb_exists. exists (pr - r, pc - c). split.
    + unfold Knight.dx, Knight.dy. simpl.
      assert (Hcases :
        (pr - r = 2 /\ pc - c = 1) \/ (pr - r = 2 /\ pc - c = -1)
        \/ (pr - r = -2 /\ pc - c = 1) \/ (pr - r = -2 /\ pc - c = -1)
        \/ (pr - r = 1 /\ pc - c = 2) \/ (pr - r = 1 /\ pc - c = -2)
        \/ (pr - r = -1 /\ pc - c = 2) \/ (pr - r = -1 /\ pc - c = -2)) by lia.
      repeat (destruct Hcases as [[-> ->] | Hcases]; [tauto |]).
      destruct Hcases as [-> ->]. tauto.
    + unfold Knight_admits, column, row. cbn [position fst snd].
      change (ch "a") with 97. change (ch "h") with 104.
      replace (r + (pr - r)) with pr by lia.
      replace (c + (pc - c)) with pc by lia.
      unfold mkPosition. rewrite to_char_id by (unfold is_char; lia).
      rewrite Position_eqb_refl.
      rewrite !andb_true_iff, !Z.geb_le, !Z.leb_le. lia.
Qed.

(** ** [Rook::legalMoves] *)

Lemma Rook_vertical_fold (x : ChessPiece) (p : Position) (range : list Z)
    (acc : list Position) :
  set_mem p (fold_left (Rook.verticalStep x) range acc)
  = set_mem p acc
    || existsb (fun i => negb (i =? row (position x))
                         && Position_eqb p (column (position x), i)) range.
Proof.
  revert acc. induction range as [| i range IH]; simpl; intros acc.
  - rewrite orb_false_r. reflexivity.
  - rewrite IH. unfold Rook.verticalStep.
    destruct (negb (i =? row (position x))); simpl.
    + rewrite set_mem_insert.
      destruct (Position_eqb p _), (set_mem p acc); reflexivity.
    + reflexivity.
Qed.

Lemma Rook_horizontal_fold (x : ChessPiece) (p : Position) (range : list Z)
    (acc : list Position) :
  set_mem p (fold_left (Rook.horizontalStep x) range acc)
  = set_mem p acc
    || existsb (fun i => negb (i =? column (position x) - ch "a" + 1)
                         && Position_eqb p (mkPosition (ch "a" + i - 1)
                                                       (row (position x)))) range.
Proof.
  revert acc. induction range as [| i range IH]; simpl; intros acc.
  - rewrite orb_false_r. reflexivity.
  - rewrite IH. unfold Rook.horizontalStep.
    destruct (negb (i =? column (position x) - ch "a" + 1)); simpl.
    + rewrite set_mem_insert.
      destruct (Position_eqb p _), (set_mem p acc); reflexivity.
    + reflexivity.
Qed.

Lemma in_one_to_eight (i : Z) : In i one_to_eight <-> 1 <= i <= 8.
Proof. unfold one_to_eight. simpl. lia. Qed.

Lemma Rook_moves_iff (x : ChessPiece) (p : Position) :
  set_mem p (fold_left (Rook.horizontalStep x) one_to_eight
               (fold_left (Rook.verticalStep x) one_to_eight [])) = true
  <-> on_file_or_rank (position x) p.
Proof.
  destruct x as [k co [c r] hm]. unfold on_file_or_rank.
  rewrite Rook_horizontal_fold, Rook_vertical_fold.
  change (set_mem p []) with false. rewrite orb_false_l, orb_true_iff.
  rewrite !existsb_exists.
  destruct p as [pc pr].
  unfold column, row. cbn [position fst snd]. change (ch "a") with 97.
  split.
  - intros [[i [Hi Ha]] | [i [Hi Ha]]];
      apply in_one_to_eight in Hi;
      apply andb_true_iff in Ha; destruct Ha as [Hne Heq];
      apply negb_true_iff, Z.eqb_neq in Hne;
      apply Position_eqb_eq in Heq.
    + injection Heq as -> ->. split; [intros [= ?]; lia | left; lia].
    + unfold mkPosition in Heq.
      rewrite to_char_id in Heq by (unfold is_char; lia).
      injection Heq as -> ->. split; [intros [= ?]; lia | right; lia].
  - intros [Hne [[-> Hr] | [-> Hc]]].
    + left. exists pr. split; [apply in_one_to_eight; lia |].
      rewrite Position_eqb_refl, andb_true_r.
      apply negb_true_iff, Z.eqb_neq. intros ->. apply Hne. reflexivity.
    + right. exists (pc - 97 + 1). split; [apply in_one_to_eight; lia |].
      replace (97 + (pc - 97 + 1) - 1) with pc by lia.
      unfold mkPosition. rewrite to_char_id by (unfold is_char; lia).
      rewrite Position_eqb_refl, andb_true_r.
      apply negb_true_iff, Z.eqb_neq. intros E. apply Hne. f_equal. lia.
Qed.

(** X5: A rook is always given a move set: every other square of its file with
    a rank from 1 to 8 and every other square of its rank with a file from a
    to h, whatever the board holds. *)
Theorem Rook_legalMoves_spec (x : ChessPiece) (board : PieceMap) (l : Position)
    (e : bool) :
  exists moves,
    Rook.legalMoves x board l e = Ret moves
    /\ forall p, set_mem p moves = true <-> on_file_or_rank (position x) p.
Proof.
  eexists. split; [reflexivity |]. intros p. apply Rook_moves_iff.
Qed.

(** ** The diagonal loop of [Bishop::legalMoves] and [Queen::legalMoves] *)

Lemma probe_sound (x : ChessPiece) (board : PieceMap) (q : Position)
    (moves moves' : list Position) (stop : bool) (p : Position) :
  Diagonal.probe x board q moves = Ret (moves', stop) ->
  set_mem p moves' = true ->
  set_mem p moves = true
  \/ (p = q /\ in_bounds q = true /\ free_or_opponent board (color x) q).
Proof.
  unfold Diagonal.probe, free_or_opponent.
  destruct (in_bounds q) eqn:Hb.
  - destruct (board !! q) as [[y|]|] eqn:Hl.
    + destruct (negb (Color_eqb (color y) (color x))) eqn:Hc.
      * intros [= <- <-]. rewrite set_mem_insert, orb_true_iff.
        intros [Heq | Hm]; [| tauto].
        apply Position_eqb_eq in Heq. right. repeat split; auto.
        right. exists y. split; [reflexivity |].
        apply Color_eqb_neq. apply negb_true_iff. exact Hc.
      * intros [= <- <-]. tauto.
    + discriminate.
    + intros [= <- <-]. rewrite set_mem_insert, orb_true_iff.
      intros [Heq | Hm]; [| tauto].
      apply Position_eqb_eq in Heq. right. repeat split; auto.
  - intros [= <- <-]. tauto.
Qed.

Lemma body_sound (x : ChessPiece) (board : PieceMap) (i : Z)
    (moves moves' : list Position) (stop : bool) (p : Position) :
  Diagonal.body x board i moves = Ret (moves', stop) ->
  set_mem p moves' = true ->
  set_mem p moves = true
  \/ (In p (diagonal_targets x i) /\ in_bounds p = true
      /\ free_or_opponent board (color x) p).
Proof.
  unfold Diagonal.body, diagonal_targets.
  set (c := column (position x)). set (r := row (position x)).
  destruct (Diagonal.probe x board (mkPosition (c + i) (r + i)) moves)
    as [[m1 s1]|] eqn:H1; simpl; [| discriminate].
  assert (S1 : set_mem p m1 = true ->
               set_mem p moves = true
               \/ (In p (diagonal_targets x i) /\ in_bounds p = true
                   /\ free_or_opponent board (color x) p)).
  { intros Hm. destruct (probe_sound _ _ _ _ _ _ p H1 Hm) as [? | (-> & ? & ?)];
      [tauto |]. right. unfold diagonal_targets. simpl. tauto. }
  destruct s1; [intros [= <- <-]; exact S1 |].
  destruct (Diagonal.probe x board (mkPosition (c - i) (r + i)) m1)
    as [[m2 s2]|] eqn:H2; simpl; [| discriminate].
  assert (S2 : set_mem p m2 = true ->
               set_mem p moves = true
               \/ (In p (diagonal_targets x i) /\ in_bounds p = true
                   /\ free_or_opponent board (color x) p)).
  { intros Hm. destruct (probe_sound _ _ _ _ _ _ p H2 Hm) as [? | (-> & ? & ?)];
      [tauto |]. right. unfold diagonal_targets. simpl. tauto. }
  destruct s2; [intros [= <- <-]; exact S2 |].
  destruct (Diagonal.probe x board (mkPosition (c + i) (r - i)) m2)
    as [[m3 s3]|] eqn:H3; simpl; [| discriminate].
  assert (S3 : set_mem p m3 = true ->
               set_mem p moves = true
               \/ (In p (diagonal_targets x i) /\ in_bounds p = true
                   /\ free_or_opponent board (color x) p)).
  { intros Hm. destruct (probe_sound _ _ _ _ _ _ p H3 Hm) as [? | (-> & ? & ?)];
      [tauto |]. right. unfold diagonal_targets. simpl. tauto. }
  destruct s3; [intros [= <- <-]; exact S3 |].
  intros H4 Hm.
  destruct (probe_sound _ _ _ _ _ _ p H4 Hm) as [? | (-> & ? & ?)]; [tauto |].
  right. unfold diagonal_targets. simpl. tauto.
Qed.

Lemma loop_sound (x : ChessPiece) (board : PieceMap) (range : list Z)
    (moves moves' : list Position) (p : Position) :
  Diagonal.loop x board range moves = Ret moves' ->
  set_mem p moves' = true ->
  set_mem p moves = true
  \/ exists i, In i range /\ In p (diagonal_targets x i) /\ in_bounds p = true
               /\ free_or_opponent board (color x) p.
Proof.
  revert moves. induction range as [| i range IH]; simpl; intros moves.
  - intros [= <-]. tauto.
  - destruct (Diagonal.body x board i moves) as [[m1 s1]|] eqn:Hb; simpl;
      [| discriminate].
    assert (S1 : set_mem p m1 = true ->
                 set_mem p moves = true
                 \/ exists j, (i = j \/ In j range) /\ In p (diagonal_targets x j)
                              /\ in_bounds p = true
                              /\ free_or_opponent board (color x) p).
    { intros Hm. destruct (body_sound _ _ _ _ _ _ p Hb Hm) as [? | ?]; [tauto |].
      right. exists i. tauto. }
    destruct s1; [intros [= <-]; exact S1 |].
    intros Hl Hm. destruct (IH _ Hl Hm) as [Hm1 | [j [Hj Hrest]]].
    + exact (S1 Hm1).
    + right. exists j. tauto.
Qed.

Lemma diagonal_target_on_diagonal (x : ChessPiece) (i : Z) (p : Position) :
  is_char (column (position x)) ->
  1 <= i <= 8 ->
  In p (diagonal_targets x i) ->
  in_bounds p = true ->
  on_diagonal (position x) p.
Proof.
  destruct x as [k co [c r] hm]. unfold is_char, diagonal_targets, on_diagonal.
  unfold column, row. cbn [position fst snd]. intros Hc Hi Hin Hb.
  apply in_bounds_range in Hb. unfold mkPosition in Hin. simpl in Hin.
  destruct Hin as [<- | [<- | [<- | [<- | []]]]];
    unfold column, row in *; cbn [fst snd] in *;
    rewrite to_char_on_board by lia; lia.
Qed.

(** X6: Every move of a bishop lies on the board, on a diagonal through the
    bishop's recorded position, and on a square with no entry or a piece of
    the other colour. *)
Theorem Bishop_legalMoves_sound (x : ChessPiece) (board : PieceMap) (l : Position)
    (e : bool) (moves : list Position) (p : Position) :
  is_char (column (position x)) ->
  Bishop.legalMoves x board l e = Ret moves ->
  set_mem p moves = true ->
  in_bounds p = true
  /\ on_diagonal (position x) p
  /\ free_or_opponent board (color x) p.
Proof.
  intros Hc H Hm. unfold Bishop.legalMoves in H.
  destruct (loop_sound _ _ _ _ _ p H Hm) as [Hnil | [i (Hi & Ht & Hb & Hf)]].
  - discriminate.
  - apply in_one_to_eight in Hi.
    split; [exact Hb |]. split; [| exact Hf].
    exact (diagonal_target_on_diagonal x i p Hc Hi Ht Hb).
Qed.

Lemma Bishop_legalMoves_sound_witness :
  in_bounds (square "e" 3) = true
  /\ on_diagonal (position (pieceOn newBoard (square "c" 1))) (square "e" 3)
  /\ free_or_opponent (pieceMap newBoard)
       (color (pieceOn newBoard (square "c" 1))) (square "e" 3).
Proof.
  apply (Bishop_legalMoves_sound (pieceOn newBoard (square "c" 1))
           (pieceMap newBoard) (lastMovePos newBoard) false
           (movesOf (movesFrom newBoard (square "c" 1)))).
  - vm_compute. split; discriminate.
  - vm_compute. reflexivity.
  - vm_compute. reflexivity.
Defined.

Lemma probe_keeps (x : ChessPiece) (board : PieceMap) (q : Position)
    (moves moves' : list Position) (stop : bool) (p : Position) :
  Diagonal.probe x board q moves = Ret (moves', stop) ->
  set_mem p moves = true -> set_mem p moves' = true.
Proof.
  unfold Diagonal.probe. intros H Hm.
  destruct (in_bounds q); [| injection H as <- <-; exact Hm].
  destruct (board !! q) as [[y|]|]; [| discriminate |].
  - destruct (negb _); injection H as <- <-; [| exact Hm].
    rewrite set_mem_insert, Hm. apply orb_true_r.
  - injection H as <- <-. rewrite set_mem_insert, Hm. apply orb_true_r.
Qed.

Lemma body_keeps (x : ChessPiece) (board : PieceMap) (i : Z)
    (moves moves' : list Position) (stop : bool) (p : Position) :
  Diagonal.body x board i moves = Ret (moves', stop) ->
  set_mem p moves = true -> set_mem p moves' = true.
Proof.
  unfold Diagonal.body. intros H Hm.
  destruct (Diagonal.probe x board _ moves) as [[m1 s1]|] eqn:H1; simpl in H;
    [| discriminate].
  pose proof (probe_keeps _ _ _ _ _ _ p H1 Hm) as K1.
  destruct s1; [injection H as <- <-; exact K1 |].
  destruct (Diagonal.probe x board _ m1) as [[m2 s2]|] eqn:H2; simpl in H;
    [| discriminate].
  pose proof (probe_keeps _ _ _ _ _ _ p H2 K1) as K2.
  destruct s2; [injection H as <- <-; exact K2 |].
  destruct (Diagonal.probe x board _ m2) as [[m3 s3]|] eqn:H3; simpl in H;
    [| discriminate].
  pose proof (probe_keeps _ _ _ _ _ _ p H3 K2) as K3.
  destruct s3; [injection H as <- <-; exact K3 |].
  exact (probe_keeps _ _ _ _ _ _ p H K3).
Qed.

Lemma loop_keeps (x : ChessPiece) (board : PieceMap) (range : list Z)
    (moves moves' : list Position) (p : Position) :
  Diagonal.loop x board range moves = Ret moves' ->
  set_mem p moves = true -> set_mem p moves' = true.
Proof.
  revert moves. induction range as [| i range IH]; simpl; intros moves H Hm.
  - injection H as <-. exact Hm.
  - destruct (Diagonal.body x board i moves) as [[m1 s1]|] eqn:Hb; simpl in H;
      [| discriminate].
    pose proof (body_keeps _ _ _ _ _ _ p Hb Hm) as K1.
    destruct s1; [injection H as <-; exact K1 |].
    exact (IH _ H K1).
Qed.

Lemma Queen_straight_fold (x : ChessPiece) (p : Position) (range : list Z)
    (acc : list Position) :
  set_mem p (fold_left (Queen.straightStep x) range acc)
  = set_mem p acc
    || existsb (fun i => negb (i =? row (position x))
                         && Position_eqb p (column (position x), i)) range
    || existsb (fun i => negb (i =? column (position x) - ch "a" + 1)
                         && Position_eqb p (mkPosition (ch "a" + i - 1)
                                                       (row (position x)))) range.
Proof.
  revert acc. induction range as [| i range IH]; simpl; intros acc.
  - rewrite !orb_false_r. reflexivity.
  - rewrite IH. unfold Queen.straightStep.
    pose proof (Rook_horizontal_fold x p [i] (Rook.verticalStep x acc i)) as Hh.
    pose proof (Rook_vertical_fold x p [i] acc) as Hv.
    simpl in Hh, Hv. rewrite Hh, Hv, !orb_false_r.
    destruct (set_mem p acc), (negb (i =? row (position x)) && _),
      (negb (i =? column (position x) - ch "a" + 1) && _),
      (existsb _ range), (existsb _ range); reflexivity.
Qed.

(** X7: A queen's move set holds every other square of her file (ranks 1 to 8)
    and of her rank (files a to h), whatever the board holds; every further
    move lies on the board, on a diagonal through her recorded position, and
    on a square with no entry or a piece of the other colour. *)
Theorem Queen_legalMoves_shape (x : ChessPiece) (board : PieceMap) (l : Position)
    (e : bool) (moves : list Position) (p : Position) :
  is_char (column (position x)) ->
  Queen.legalMoves x board l e = Ret moves ->
  (on_file_or_rank (position x) p -> set_mem p moves = true)
  /\ (set_mem p moves = true ->
      on_file_or_rank (position x) p
      \/ (in_bounds p = true
          /\ on_diagonal (position x) p
          /\ free_or_opponent board (color x) p)).
Proof.
  intros Hc H. unfold Queen.legalMoves in H.
  assert (Hs : set_mem p (fold_left (Queen.straightStep x) one_to_eight []) = true
               <-> on_file_or_rank (position x) p).
  { rewrite <- Rook_moves_iff.
    rewrite Queen_straight_fold, Rook_horizontal_fold, Rook_vertical_fold.
    reflexivity. }
  split.
  - intros Hp. apply (loop_keeps _ _ _ _ _ p H). apply Hs. exact Hp.
  - intros Hm.
    destruct (loop_sound _ _ _ _ _ p H Hm) as [Hst | [i (Hi & Ht & Hb & Hf)]].
    + left. apply Hs. exact Hst.
    + right. apply in_one_to_eight in Hi.
      split; [exact Hb |]. split; [| exact Hf].
      exact (diagonal_target_on_diagonal x i p Hc Hi Ht Hb).
Qed.

Lemma Queen_legalMoves_shape_witness :
  (on_file_or_rank (position (pieceOn newBoard (square "d" 1))) (square "d" 8) ->
   set_mem (square "d" 8) (movesOf (movesFrom newBoard (square "d" 1))) = true)
  /\ (set_mem (square "d" 8) (movesOf (movesFrom newBoard (square "d" 1))) = true ->
      on_file_or_rank (position (pieceOn newBoard (square "d" 1))) (square "d" 8)
      \/ (in_bounds (square "d" 8) = true
          /\ on_diagonal (position (pieceOn newBoard (square "d" 1))) (square "d" 8)
          /\ free_or_opponent (pieceMap newBoard)
               (color (pieceOn newBoard (square "d" 1))) (square "d" 8))).
Proof.
  apply (Queen_legalMoves_shape (pieceOn newBoard (square "d" 1))
           (pieceMap newBoard) (lastMovePos newBoard) false).
  - vm_compute. split; discriminate.
  - vm_compute. reflexivity.
Defined.

(** ** [Pawn::legalMoves] *)

Lemma absent_true (board : PieceMap) (p : Position) :
  absent board p = true <-> board !! p = None.
Proof. unfold absent. destruct (board !! p); split; congruence. Qed.

Lemma Pawn_forward_mem (x : ChessPiece) (board : PieceMap) (p : Position) :
  set_mem p (Pawn.forward x board []) = true <-> Pawn_advances x board p.
Proof.
  unfold Pawn.forward, Pawn_advances. cbv zeta.
  set (one := (column (position x), row (position x) + Pawn.direction (color x))).
  set (two := (column (position x), row (position x) + 2 * Pawn.direction (color x))).
  rewrite <- (absent_true board one), <- (absent_true board two).
  destruct (absent board one); [| simpl; intuition discriminate].
  destruct (hasMoved x); simpl negb; cbv iota.
  - simpl. rewrite orb_false_r, Position_eqb_eq. intuition discriminate.
  - destruct (absent board two).
    + rewrite !set_mem_insert. simpl. rewrite orb_false_r, orb_true_iff.
      rewrite !Position_eqb_eq. intuition.
    + simpl. rewrite orb_false_r, Position_eqb_eq. intuition discriminate.
Qed.

Lemma Pawn_capture_mem (x : ChessPiece) (board : PieceMap) (dc : Z)
    (acc moves : list Position) (p : Position) :
  Pawn.capture x board dc acc = Ret moves ->
  set_mem p moves = true
  <-> set_mem p acc = true
      \/ (p = mkPosition (column (position x) + dc)
                         (row (position x) + Pawn.direction (color x))
          /\ exists y, board !! p = Some (Some y) /\ color y <> color x).
Proof.
  unfold Pawn.capture, holds_opponent. cbv zeta.
  set (cap := mkPosition _ _).
  destruct (board !! cap) as [[y|]|] eqn:Hl; simpl; try discriminate.
  - destruct (negb (Color_eqb (color y) (color x))) eqn:Hc; intros [= <-].
    + rewrite set_mem_insert, orb_true_iff, Position_eqb_eq.
      apply negb_true_iff, Color_eqb_neq in Hc.
      split; [intros [-> | ?]; [right | left] | intros [? | [-> _]]]; eauto.
    + apply negb_false_iff, Color_eqb_eq in Hc.
      split; [tauto | intros [? | [-> [z [Hz Hne]]]]; [assumption |]].
      rewrite Hl in Hz. injection Hz as <-. contradiction.
  - intros [= <-].
    split; [tauto | intros [? | [-> [z [Hz _]]]]; [assumption |]].
    rewrite Hl in Hz. discriminate.
Qed.

Lemma opposing_pawn_symbol (x a : ChessPiece) :
  String.eqb (toString a) (match color x with WHITE => "p" | BLACK => "P" end) = true
  <-> kind a = Pawn /\ color a <> color x.
Proof.
  unfold toString.
  destruct (kind a), (color a), (color x); simpl; split;
    try discriminate; try (intros [? ?]; congruence);
    intros _; split; congruence.
Qed.

Lemma Pawn_enPassant_mem (x : ChessPiece) (board : PieceMap) (l : Position) (e : bool)
    (acc moves : list Position) (p : Position) :
  Pawn.enPassant x board l e acc = Ret moves ->
  set_mem p moves = true
  <-> set_mem p acc = true \/ Pawn_passes x board l e p.
Proof.
  unfold Pawn.enPassant, Pawn_passes. cbv zeta.
  set (left := mkPosition (column (position x) - 1) (row (position x))).
  set (right := mkPosition (column (position x) + 1) (row (position x))).
  destruct e; simpl andb; [| intros [= <-]; intuition discriminate].
  destruct (hasMoved x); simpl negb; cbv iota;
    [intros [= <-]; intuition discriminate |].
  destruct (Position_eqb l left || Position_eqb l right) eqn:Hadj.
  - assert (Hl : l = left \/ l = right).
    { apply orb_true_iff in Hadj. rewrite !Position_eqb_eq in Hadj. exact Hadj. }
    destruct (board !! l) as [[a|]|] eqn:Hb; [| | discriminate].
    + destruct (String.eqb (toString a) _ && negb (hasMoved a)) eqn:Hsym;
        intros [= <-].
      * apply andb_true_iff in Hsym. destruct Hsym as [Hs Hm].
        apply opposing_pawn_symbol in Hs. apply negb_true_iff in Hm.
        rewrite set_mem_insert, orb_true_iff, Position_eqb_eq.
        split.
        -- intros [-> | ?]; [right | left; assumption].
           repeat split; try assumption. exists a. tauto.
        -- intros [? | (_ & _ & _ & _ & ->)]; [right; assumption | left; reflexivity].
      * split; [tauto |].
        intros [? | (_ & _ & _ & [a' (Ha' & Hk & Hco & Hm)] & _)]; [assumption |].
        injection Ha' as <-.
        apply andb_false_iff in Hsym. destruct Hsym as [Hs | Hs].
        -- assert (String.eqb (toString a)
                      (match color x with WHITE => "p" | BLACK => "P" end) = true)
             by (apply opposing_pawn_symbol; tauto).
           congruence.
        -- rewrite Hm in Hs. discriminate.
    + intros [= <-]. split; [tauto |].
      intros [? | (_ & _ & _ & [a' (Ha' & _)] & _)]; [assumption | discriminate].
  - intros [= <-]. split; [tauto |].
    intros [? | (_ & _ & Hl & _)]; [assumption |].
    apply orb_false_iff in Hadj. rewrite !Position_eqb_neq in Hadj. tauto.
Qed.

Lemma Pawn_legalMoves_mem (x : ChessPiece) (board : PieceMap) (l : Position)
    (e : bool) (moves : list Position) (p : Position) :
  Pawn.legalMoves x board l e = Ret moves ->
  set_mem p moves = true
  <-> Pawn_advances x board p \/ Pawn_takes x board p \/ Pawn_passes x board l e p.
Proof.
  unfold Pawn.legalMoves. cbv zeta.
  destruct (Pawn.capture x board (-1) _) as [m1|] eqn:H1; simpl; [| discriminate].
  destruct (Pawn.capture x board 1 m1) as [m2|] eqn:H2; simpl; [| discriminate].
  intros H3.
  rewrite (Pawn_enPassant_mem _ _ _ _ _ _ p H3).
  rewrite (Pawn_capture_mem _ _ _ _ _ p H2).
  rewrite (Pawn_capture_mem _ _ _ _ _ p H1).
  rewrite Pawn_forward_mem. unfold Pawn_takes. cbv zeta.
  replace (column (position x) + -1) with (column (position x) - 1) by lia.
  tauto.
Qed.

(** X8: The move set of a pawn holds exactly its advances, its captures and
    the en-passant square. *)
Theorem Pawn_legalMoves_spec (x : ChessPiece) (board : PieceMap) (l : Position)
    (e : bool) (moves : list Position) (p : Position) :
  Pawn.legalMoves x board l e = Ret moves ->
  set_mem p moves = true
  <-> Pawn_advances x board p \/ Pawn_takes x board p \/ Pawn_passes x board l e p.
Proof. apply Pawn_legalMoves_mem. Qed.

Lemma Pawn_legalMoves_spec_witness :
  set_mem (square "e" 4) (movesOf (movesFrom newBoard (square "e" 2))) = true
  <-> Pawn_advances (pieceOn newBoard (square "e" 2)) (pieceMap newBoard) (square "e" 4)
      \/ Pawn_takes (pieceOn newBoard (square "e" 2)) (pieceMap newBoard) (square "e" 4)
      \/ Pawn_passes (pieceOn newBoard (square "e" 2)) (pieceMap newBoard)
           (lastMovePos newBoard) (enPassantAvailable newBoard) (square "e" 4).
Proof.
  apply (Pawn_legalMoves_spec (pieceOn newBoard (square "e" 2)) (pieceMap newBoard)
           (lastMovePos newBoard) (enPassantAvailable newBoard)).
  vm_compute. reflexivity.
Defined.

(** ** [Board::movePiece]: what a call changes *)

Lemma castle_piece (rc kc : ascii) (s : string) (b : Board) (piece : ChessPiece)
    (fromPos t : Position) :
  setPosition t (snd (castle rc kc s b piece fromPos)) = setPosition t piece.
Proof.
  unfold castle. destruct (pieceMap b !! _) as [[rook|]|]; simpl; try reflexivity.
  destruct (String.eqb _ _); reflexivity.
Qed.

Lemma castle_lookup (rc kc : ascii) (s : string) (b : Board) (piece : ChessPiece)
    (fromPos k : Position) :
  k <> (ch rc, row fromPos) ->
  pieceMap (fst (castle rc kc s b piece fromPos)) !! k = pieceMap b !! k.
Proof.
  intros Hk. unfold castle.
  destruct (pieceMap b !! (ch rc, row fromPos)) as [[rook|]|]; simpl.
  - destruct (String.eqb _ _); simpl; [| reflexivity].
    unfold updateCastlingRights.
    destruct (color _), (String.eqb s "king"); simpl;
      rewrite lookup_insert_ne by congruence; reflexivity.
  - reflexivity.
  - rewrite lookup_insert_ne by congruence. reflexivity.
Qed.

(** The map after [finishMove]. *)
Lemma finishMove_map (b : Board) (piece : ChessPiece) (fromPos toPos : Position)
    (e r : bool) (b' : Board) :
  finishMove b piece fromPos toPos e = Ret (r, b') ->
  pieceMap b'
  = delete fromPos
      (<[toPos := Some (markAsMoved (setPosition toPos piece))]>
         (if e then delete (column toPos, row fromPos) (pieceMap b) else pieceMap b)).
Proof.
  unfold finishMove. destruct e; simpl.
  - destruct (Position_eqb _ fromPos); simpl; [discriminate |].
    intros [= <- <-]. reflexivity.
  - intros [= <- <-]. reflexivity.
Qed.

(** What [movePieceAt] does for a piece standing on [fromPos]: it refuses
    and returns the board, or it finishes the move from a board [b1] that
    differs from [b] at most in the corner square of a castling attempt and
    in the castling rights. *)
Lemma movePieceAt_cases (b : Board) (fromPos toPos : Position) (piece : ChessPiece)
    (r : bool) (b' : Board) :
  pieceMap b !! fromPos = Some (Some piece) ->
  movePieceAt b fromPos toPos = Ret (r, b') ->
  (r = false /\ b' = b)
  \/ (r = true
      /\ exists b1 e,
           finishMove b1 (setPosition toPos piece) fromPos toPos e = Ret (true, b')
           /\ (forall k, k <> (ch "h", row fromPos) -> k <> (ch "a", row fromPos) ->
                         pieceMap b1 !! k = pieceMap b !! k)).
Proof.
  intros Hp. unfold movePieceAt. rewrite Hp.
  assert (Hfin : forall b1 x e r b',
             finishMove b1 x fromPos toPos e = Ret (r, b') ->
             finishMove b1 (setPosition toPos x) fromPos toPos e = Ret (true, b')).
  { intros b1 x e r0 b0 H. pose proof (finishMove_inv _ _ _ _ _ _ _ H) as [-> _].
    exact H. }
  destruct (kind piece);
    [ destruct (Pawn.legalMoves _ _ _ _) as [moves|]; simpl; [| discriminate];
      destruct (set_mem toPos moves); simpl;
      [ intros H; right;
        pose proof (finishMove_inv _ _ _ _ _ _ _ H) as [-> _];
        split; [reflexivity |];
        eexists _, _; split; [exact (Hfin _ _ _ _ _ H) | reflexivity]
      | intros [= <- <-]; left; split; reflexivity ]
    | .. ];
    repeat match goal with
      | |- context [if ?c then _ else _] => destruct c
      end;
    try match goal with
      | |- context [castle ?rc ?kc ?s b piece fromPos] =>
          pose proof (castle_piece rc kc s b piece fromPos toPos) as Hcp;
          pose proof (fun k => castle_lookup rc kc s b piece fromPos k) as Hcl;
          destruct (castle rc kc s b piece fromPos) as [b1 x]; simpl in Hcp, Hcl
      end;
    intros H; right;
    pose proof (finishMove_inv _ _ _ _ _ _ _ H) as [-> _];
    (split; [reflexivity |]);
    eexists _, _;
    (split;
     [ first [rewrite <- Hcp; apply (Hfin _ _ _ _ _ H) | apply (Hfin _ _ _ _ _ H)]
     | intros k Hk1 Hk2; first [apply Hcl; assumption | reflexivity] ]).
Qed.

Lemma movePiece_at (b : Board) (from to : string) (f t : Position) :
  squareOf from = Ret f -> squareOf to = Ret t ->
  movePiece b from to = movePieceAt b f t.
Proof. intros Hf Ht. unfold movePiece. rewrite Hf, Ht. reflexivity. Qed.

Lemma movePiece_squares (b : Board) (from to : string) (r : bool) (b' : Board) :
  movePiece b from to = Ret (r, b') ->
  exists f t, squareOf from = Ret f /\ squareOf to = Ret t
              /\ movePieceAt b f t = Ret (r, b').
Proof.
  unfold movePiece.
  destruct (squareOf from) as [f|]; simpl; [| discriminate].
  destruct (squareOf to) as [t|]; simpl; [| discriminate].
  intros H. exists f, t. auto.
Qed.

Lemma movePieceAt_rejected (b : Board) (f t : Position) (b' : Board) :
  movePieceAt b f t = Ret (false, b') -> b' = b.
Proof.
  intros H. destruct (pieceMap b !! f) as [[piece|]|] eqn:Hp.
  - destruct (movePieceAt_cases _ _ _ _ _ _ Hp H) as [[_ ->] | [? _]];
      [reflexivity | discriminate].
  - unfold movePieceAt in H. rewrite Hp in H. discriminate.
  - unfold movePieceAt in H. rewrite Hp in H. injection H as <-. reflexivity.
Qed.

(** X9: A call of [movePiece] that returns false has changed nothing: the map,
    the turn, the last move, the en-passant flag and the castling rights are
    those of the board it was given. *)
Theorem movePiece_rejected_unchanged (b : Board) (from to : string) (b' : Board) :
  movePiece b from to = Ret (false, b') -> b' = b.
Proof.
  intros H. destruct (movePiece_squares _ _ _ _ _ H) as (f & t & _ & _ & Hat).
  exact (movePieceAt_rejected _ _ _ _ Hat).
Qed.

(** The pawn move e2-e5 on the starting board is refused. *)
Lemma movePiece_rejected_unchanged_witness :
  boardOf (movePiece newBoard "e2" "e5") = newBoard.
Proof.
  apply (movePiece_rejected_unchanged newBoard "e2" "e5").
  vm_compute. reflexivity.
Defined.

Lemma movePieceAt_moved (b : Board) (f t : Position) (b' : Board) :
  movePieceAt b f t = Ret (true, b') ->
  exists piece,
    pieceMap b !! f = Some (Some piece)
    /\ pieceMap b' !! f = None
    /\ (t <> f ->
        pieceMap b' !! t = Some (Some (markAsMoved (setPosition t piece))))
    /\ (forall k, k <> f -> k <> t -> k <> (column t, row f) ->
                  k <> (ch "h", row f) -> k <> (ch "a", row f) ->
                  pieceMap b' !! k = pieceMap b !! k).
Proof.
  intros H. destruct (pieceMap b !! f) as [[piece|]|] eqn:Hp.
  - exists piece. split; [reflexivity |].
    destruct (movePieceAt_cases _ _ _ _ _ _ Hp H) as [[? _] | [_ (b1 & e & Hfin & Hfr)]];
      [discriminate |].
    rewrite (finishMove_map _ _ _ _ _ _ _ Hfin).
    split; [apply lookup_delete_eq |]. split.
    + intros Hne. rewrite lookup_delete_ne by congruence.
      rewrite lookup_insert_eq. reflexivity.
    + intros k K1 K2 K3 K4 K5.
      rewrite lookup_delete_ne by congruence.
      rewrite lookup_insert_ne by congruence.
      destruct e; [rewrite lookup_delete_ne by congruence |]; apply Hfr; assumption.
  - unfold movePieceAt in H. rewrite Hp in H. discriminate.
  - unfold movePieceAt in H. rewrite Hp in H. discriminate.
Qed.

(** X10: A call of [movePiece] that returns true found a piece on [from], has
    erased the entry of [from] and, unless [to] is [from], has stored that
    piece under [to], marked as moved and with [to] as its position; the
    last move is [to]. *)
Theorem movePiece_relocates (b : Board) (from to : string) (f t : Position)
    (b' : Board) :
  squareOf from = Ret f ->
  squareOf to = Ret t ->
  movePiece b from to = Ret (true, b') ->
  exists piece,
    pieceMap b !! f = Some (Some piece)
    /\ pieceMap b' !! f = None
    /\ (t <> f ->
        pieceMap b' !! t = Some (Some (markAsMoved (setPosition t piece))))
    /\ lastMovePos b' = t.
Proof.
  intros Hf Ht H. rewrite (movePiece_at _ _ _ _ _ Hf Ht) in H.
  destruct (movePieceAt_moved _ _ _ _ H) as (piece & H1 & H2 & H3 & _).
  exists piece. repeat split; try assumption.
  apply movePieceAt_success in H. tauto.
Qed.

Lemma movePiece_relocates_witness :
  exists piece,
    pieceMap newBoard !! square "g" 1 = Some (Some piece)
    /\ pieceMap (boardOf (movePiece newBoard "g1" "f3")) !! square "g" 1 = None
    /\ (square "f" 3 <> square "g" 1 ->
        pieceMap (boardOf (movePiece newBoard "g1" "f3")) !! square "f" 3
        = Some (Some (markAsMoved (setPosition (square "f" 3) piece))))
    /\ lastMovePos (boardOf (movePiece newBoard "g1" "f3")) = square "f" 3.
Proof.
  apply (movePiece_relocates newBoard "g1" "f3");
    vm_compute; reflexivity.
Defined.

(** X11: A piece other than a pawn that is moved onto its own square is taken
    off the board: the call returns true and the square has no entry
    afterwards. *)
Theorem movePiece_onto_itself (b : Board) (s : string) (f : Position)
    (piece : ChessPiece) :
  squareOf s = Ret f ->
  pieceMap b !! f = Some (Some piece) ->
  kind piece <> Pawn ->
  exists b', movePiece b s s = Ret (true, b') /\ pieceMap b' !! f = None.
Proof.
  intros Hs Hp Hk. rewrite (movePiece_at _ _ _ _ _ Hs Hs).
  destruct (movePieceAt_non_pawn b f f piece Hp Hk) as [b' H].
  exists b'. split; [exact H |].
  destruct (movePieceAt_moved _ _ _ _ H) as (_ & _ & H2 & _). exact H2.
Qed.

Lemma movePiece_onto_itself_witness :
  exists b', movePiece newBoard "d1" "d1" = Ret (true, b')
             /\ pieceMap b' !! square "d" 1 = None.
Proof.
  apply (movePiece_onto_itself newBoard "d1" (square "d" 1)
           (pieceOn newBoard (square "d" 1))).
  - vm_compute. reflexivity.
  - vm_compute. reflexivity.
  - vm_compute. discriminate.
Defined.

(** X12: A call of [movePiece] leaves every entry as it was, other than those of
    [from], of [to], of the square beside [from] on the file of [to] (the
    en-passant victim) and of the two corner squares of the rank of [from]
    (the castling rook). *)
Theorem movePiece_frame (b : Board) (from to : string) (f t : Position)
    (r : bool) (b' : Board) (k : Position) :
  squareOf from = Ret f ->
  squareOf to = Ret t ->
  movePiece b from to = Ret (r, b') ->
  k <> f -> k <> t -> k <> (column t, row f) ->
  k <> (ch "h", row f) -> k <> (ch "a", row f) ->
  pieceMap b' !! k = pieceMap b !! k.
Proof.
  intros Hf Ht H. rewrite (movePiece_at _ _ _ _ _ Hf Ht) in H.
  destruct r.
  - destruct (movePieceAt_moved _ _ _ _ H) as (_ & _ & _ & _ & Hfr). apply Hfr.
  - rewrite (movePieceAt_rejected _ _ _ _ H). reflexivity.
Qed.

Lemma movePiece_frame_witness :
  pieceMap (boardOf (movePiece newBoard "e2" "e4")) !! square "d" 8
  = pieceMap newBoard !! square "d" 8.
Proof.
  apply (movePiece_frame newBoard "e2" "e4" (square "e" 2) (square "e" 4) true);
    try (vm_compute; reflexivity); vm_compute; discriminate.
Defined.

(** ** Castling in [movePiece] *)

Lemma castle_rights_kept (rc kc : ascii) (s : string) (b : Board) (piece : ChessPiece)
    (fromPos : Position) :
  s <> "king"%string ->
  rights (fst (castle rc kc s b piece fromPos)) = rights b.
Proof.
  intros Hs. unfold castle.
  destruct (pieceMap b !! _) as [[rook|]|]; simpl; try reflexivity.
  destruct (String.eqb _ _); simpl; [| reflexivity].
  unfold updateCastlingRights.
  destruct (String.eqb s "king") eqn:E; [apply String.eqb_eq in E; contradiction |].
  destruct (color _); reflexivity.
Qed.

Lemma finishMove_rights (b : Board) (piece : ChessPiece) (f t : Position)
    (e r : bool) (b' : Board) :
  finishMove b piece f t e = Ret (r, b') -> rights b' = rights b.
Proof.
  intros H. apply finishMove_inv in H.
  destruct H as (_ & _ & _ & _ & H1 & H2 & H3 & H4).
  unfold rights. rewrite H1, H2, H3, H4. reflexivity.
Qed.

(** X13: The castling rights change in one case only: a king is moved to the
    g-file square of its rank.  No move of a rook or of any other piece, no
    other move of a king and no queen-side castling takes a right away. *)
Theorem movePiece_rights_unchanged (b : Board) (from to : string) (f t : Position)
    (r : bool) (b' : Board) :
  squareOf from = Ret f ->
  squareOf to = Ret t ->
  movePiece b from to = Ret (r, b') ->
  (forall piece, pieceMap b !! f = Some (Some piece) ->
                 kind piece = King -> t <> (ch "g", row f)) ->
  rights b' = rights b.
Proof.
  intros Hf Ht H Hk. rewrite (movePiece_at _ _ _ _ _ Hf Ht) in H.
  unfold movePieceAt in H.
  destruct (pieceMap b !! f) as [[piece|]|]; [| discriminate | congruence].
  specialize (Hk piece eq_refl).
  destruct (kind piece) eqn:Hkind;
    [ destruct (Pawn.legalMoves _ _ _ _) as [moves|]; simpl in H; [| discriminate];
      destruct (set_mem t moves); simpl in H;
      [ apply finishMove_rights in H; exact H | congruence ]
    | .. ];
    try (assert (Hnk : isKingPiece piece = false)
          by (unfold isKingPiece, toString; rewrite Hkind;
              destruct (color piece); reflexivity);
         rewrite Hnk in H; simpl in H;
         apply finishMove_rights in H; exact H).
  assert (Hg : Position_eqb t (ch "g", row f) = false)
    by (apply Position_eqb_neq; apply Hk; reflexivity).
  rewrite Hg, andb_false_r in H.
  destruct (isKingPiece piece && canCastleQueenSide b (color piece)
            && Position_eqb t (ch "c", row f)).
  - pose proof (castle_rights_kept "a" "d" "queen" b piece f ltac:(discriminate)) as Hr.
    destruct (castle "a" "d" "queen" b piece f) as [b1 x]; simpl in Hr.
    apply finishMove_rights in H. congruence.
  - apply finishMove_rights in H. exact H.
Qed.

(** The white rook a1-a5 on the starting board. *)
Lemma movePiece_rights_unchanged_witness :
  rights (boardOf (movePiece newBoard "a1" "a5")) = rights newBoard.
Proof.
  apply (movePiece_rights_unchanged newBoard "a1" "a5" (square "a" 1) (square "a" 5) true);
    try (vm_compute; reflexivity).
  intros piece Hp. vm_compute in Hp. injection Hp as <-. discriminate.
Defined.

(** X14: King-side castling as the code performs it.  When a king that holds
    its king-side right is moved to the g-file square of its rank and a rook
    of its colour stands on the h-file square of that rank, the call returns
    true, both rights of that colour are gone, the king is stored under the
    g-file square, and the rook is still stored under the h-file square, with
    the e-file square as its recorded position. *)
Theorem movePiece_castles_king_side (b : Board) (from to : string) (f : Position)
    (king rook : ChessPiece) :
  squareOf from = Ret f ->
  squareOf to = Ret (ch "g", row f) ->
  pieceMap b !! f = Some (Some king) ->
  kind king = King ->
  canCastleKingSide b (color king) = true ->
  pieceMap b !! (ch "h", row f) = Some (Some rook) ->
  kind rook = Rook ->
  color rook = color king ->
  exists b',
    movePiece b from to = Ret (true, b')
    /\ canCastleKingSide b' (color king) = false
    /\ canCastleQueenSide b' (color king) = false
    /\ canCastleKingSide b' (opposite (color king))
       = canCastleKingSide b (opposite (color king))
    /\ canCastleQueenSide b' (opposite (color king))
       = canCastleQueenSide b (opposite (color king))
    /\ (f <> (ch "g", row f) ->
        pieceMap b' !! (ch "g", row f)
        = Some (Some (markAsMoved (setPosition (ch "g", row f) king))))
    /\ pieceMap b' !! (ch "h", row f)
       = Some (Some (setPosition (ch "e", row f) rook)).
Proof.
  intros Hf Ht Hp Hk Hright Hrook Hkr Hcr.
  assert (Hfh : f <> (ch "h", row f)).
  { intros E. rewrite <- E in Hrook. congruence. }
  rewrite (movePiece_at _ _ _ _ _ Hf Ht).
  unfold movePieceAt. rewrite Hp, Hk.
  assert (HisK : isKingPiece king = true)
    by (unfold isKingPiece, toString; rewrite Hk; destruct (color king); reflexivity).
  rewrite HisK, Hright, Position_eqb_refl. simpl.
  unfold castle. rewrite Hrook.
  assert (HisR : String.eqb (toString rook)
                   (match color king with WHITE => "R" | BLACK => "r" end) = true)
    by (unfold toString; rewrite Hkr, Hcr; destruct (color king); reflexivity).
  rewrite HisR.
  eexists. split; [reflexivity |].
  unfold canCastleKingSide, canCastleQueenSide, updateCastlingRights. simpl.
  destruct (color king); simpl; repeat split;
    try (intros Hne; rewrite lookup_delete_ne by congruence;
         rewrite lookup_insert_eq; reflexivity);
    rewrite lookup_delete_ne by congruence;
    rewrite lookup_insert_ne by (change (ch "g") with 103; change (ch "h") with 104;
                                 intros [= ?]);
    rewrite lookup_insert_eq; reflexivity.
Qed.

Lemma movePiece_castles_king_side_witness :
  exists b',
    movePiece (boardOf (play newBoard beforeCastling)) "e1" "g1" = Ret (true, b')
    /\ canCastleKingSide b' WHITE = false
    /\ canCastleQueenSide b' WHITE = false
    /\ canCastleKingSide b' BLACK = true
    /\ canCastleQueenSide b' BLACK = true
    /\ (square "e" 1 <> square "g" 1 ->
        pieceMap b' !! square "g" 1
        = Some (Some (markAsMoved (setPosition (square "g" 1)
                                     (newPieceAt King WHITE (square "e" 1))))))
    /\ pieceMap b' !! square "h" 1
       = Some (Some (setPosition (square "e" 1) (newPieceAt Rook WHITE (square "h" 1)))).
Proof.
  apply (movePiece_castles_king_side (boardOf (play newBoard beforeCastling))
           "e1" "g1" (square "e" 1)
           (newPieceAt King WHITE (square "e" 1))
           (newPieceAt Rook WHITE (square "h" 1)));
    vm_compute; reflexivity.
Defined.

(** X15: A castling attempt without a rook.  When a king that holds the right
    of a side is moved to the castling square of that side and the corner
    square of that side has no entry, the call returns true like any move of
    the king, keeps the castling rights, and leaves a null pointer stored
    under the corner square. *)
Theorem movePiece_castling_without_rook (b : Board) (from to : string) (f : Position)
    (king : ChessPiece) (corner : ascii) :
  squareOf from = Ret f ->
  pieceMap b !! f = Some (Some king) ->
  kind king = King ->
  (canCastleKingSide b (color king) = true
   /\ squareOf to = Ret (ch "g", row f) /\ corner = "h"%char)
  \/ (canCastleQueenSide b (color king) = true
      /\ squareOf to = Ret (ch "c", row f) /\ corner = "a"%char) ->
  pieceMap b !! (ch corner, row f) = None ->
  exists b',
    movePiece b from to = Ret (true, b')
    /\ pieceMap b' !! (ch corner, row f) = Some None
    /\ rights b' = rights b.
Proof.
  intros Hf Hp Hk Hside Hcorner.
  assert (HisK : isKingPiece king = true)
    by (unfold isKingPiece, toString; rewrite Hk; destruct (color king); reflexivity).
  assert (Hfc : f <> (ch corner, row f)) by (intros E; rewrite <- E in Hcorner; congruence).
  destruct Hside as [(Hright & Ht & ->) | (Hright & Ht & ->)];
    rewrite (movePiece_at _ _ _ _ _ Hf Ht);
    unfold movePieceAt; rewrite Hp, Hk, HisK, Hright.
  - rewrite Position_eqb_refl. simpl. unfold castle. rewrite Hcorner.
    eexists. split; [reflexivity |]. simpl. split; [| reflexivity].
    rewrite lookup_delete_ne by congruence.
    rewrite lookup_insert_ne by (change (ch "g") with 103; change (ch "h") with 104;
                                 intros [= ?]).
    apply lookup_insert_eq.
  - assert (Hg : Position_eqb (ch "c", row f) (ch "g", row f) = false)
      by (apply Position_eqb_neq; change (ch "g") with 103; change (ch "c") with 99;
          intros [= ?]).
    rewrite Hg, andb_false_r, Position_eqb_refl. simpl. unfold castle. rewrite Hcorner.
    eexists. split; [reflexivity |]. simpl. split; [| reflexivity].
    rewrite lookup_delete_ne by congruence.
    rewrite lookup_insert_ne by (change (ch "c") with 99; change (ch "a") with 97;
                                 intros [= ?]).
    apply lookup_insert_eq.
Qed.

Lemma movePiece_castling_without_rook_witness :
  exists b',
    movePiece (boardOf (play newBoard rookGone)) "e1" "g1" = Ret (true, b')
    /\ pieceMap b' !! (ch "h", row (square "e" 1)) = Some None
    /\ rights b' = rights (boardOf (play newBoard rookGone)).
Proof.
  apply (movePiece_castling_without_rook (boardOf (play newBoard rookGone))
           "e1" "g1" (square "e" 1) (newPieceAt King WHITE (square "e" 1)) "h").
  - vm_compute. reflexivity.
  - vm_compute. reflexivity.
  - reflexivity.
  - left. repeat split; vm_compute; reflexivity.
  - vm_compute. reflexivity.
Defined.

(** ** [Board::findKing] and [Board::isInCheck] *)

Lemma king_test (x : ChessPiece) (c : Color) :
  Color_eqb (color x) c
  && String.eqb (toString x) (match c with WHITE => "K" | BLACK => "k" end) = true
  <-> kind x = King /\ color x = c.
Proof.
  unfold toString. destruct (kind x), (color x), c; simpl; split;
    try discriminate; try (intros [? ?]; congruence); intros _; split; reflexivity.
Qed.

Lemma findKingIn_found (es : list (Position * option ChessPiece)) (c : Color)
    (king : ChessPiece) :
  findKingIn es c = Ret (Some king) ->
  exists k, (k, Some king) ∈ es /\ kind king = King /\ color king = c.
Proof.
  induction es as [| [k [x|]] es IH]; simpl; try discriminate.
  destruct (Color_eqb (color x) c && _) eqn:Ht.
  - intros [= ->]. apply king_test in Ht. exists k. split; [left | exact Ht].
  - intros H. destruct (IH H) as [k' [Hin Hk]]. exists k'. split; [right | ]; assumption.
Qed.

Lemma findKingIn_none (es : list (Position * option ChessPiece)) (c : Color) :
  (forall k x, (k, Some x) ∈ es -> ~ (kind x = King /\ color x = c)) ->
  findKingIn es c = Ret None \/ findKingIn es c = Crash NullDereference.
Proof.
  induction es as [| [k [x|]] es IH]; simpl; intros Hno; [tauto | | tauto].
  destruct (Color_eqb (color x) c && _) eqn:Ht.
  - apply king_test in Ht. exfalso. apply (Hno k x); [left | exact Ht].
  - apply IH. intros k' x' Hin. apply (Hno k' x'). right. exact Hin.
Qed.

(** X16: Without a king of the colour asked for, [isInCheck] dereferences the
    null pointer that [findKing] returns (or one stored in the map). *)
Theorem isInCheck_without_king (b : Board) (c : Color) :
  (forall k x, pieceMap b !! k = Some (Some x) -> ~ (kind x = King /\ color x = c)) ->
  isInCheck b c = Crash NullDereference.
Proof.
  intros Hno. unfold isInCheck, findKing, entries.
  assert (Hn : forall k x, (k, Some x) ∈ map_to_list (pieceMap b) ->
                           ~ (kind x = King /\ color x = c)).
  { intros k x Hin. apply elem_of_map_to_list in Hin. exact (Hno k x Hin). }
  destruct (findKingIn_none _ c Hn) as [-> | ->]; reflexivity.
Qed.

Lemma attackedIn_true (b : Board) (es : list (Position * option ChessPiece))
    (c : Color) (kingPos : Position) :
  attackedIn b es c kingPos = Ret true ->
  exists q a, (q, Some a) ∈ es /\ color a <> c /\ attacks b a kingPos.
Proof.
  induction es as [| [q [a|]] es IH]; simpl; try discriminate.
  destruct (negb (Color_eqb (color a) c)) eqn:Hc.
  - destruct (legalMoves a _ _ _) as [moves|] eqn:Hm; simpl; [| discriminate].
    destruct (set_mem kingPos moves) eqn:Hs.
    + intros _. exists q, a. split; [left |]. split.
      * apply Color_eqb_neq. apply negb_true_iff. exact Hc.
      * exists moves. auto.
    + intros H. destruct (IH H) as (q' & a' & Hin & Hrest).
      exists q', a'. split; [right |]; assumption.
  - intros H. destruct (IH H) as (q' & a' & Hin & Hrest).
    exists q', a'. split; [right |]; assumption.
Qed.

Lemma attackedIn_false (b : Board) (es : list (Position * option ChessPiece))
    (c : Color) (kingPos : Position) :
  attackedIn b es c kingPos = Ret false ->
  forall q a, (q, Some a) ∈ es -> color a <> c -> ~ attacks b a kingPos.
Proof.
  induction es as [| [q [a|]] es IH]; simpl; try discriminate.
  - intros _ q a Hin. inversion Hin.
  - destruct (negb (Color_eqb (color a) c)) eqn:Hc.
    + destruct (legalMoves a _ _ _) as [moves|] eqn:Hm; simpl; [| discriminate].
      destruct (set_mem kingPos moves) eqn:Hs; [discriminate |].
      intros H q' a' Hin Hne. apply elem_of_cons in Hin.
      destruct Hin as [[= -> ->] | Hin]; [| exact (IH H q' a' Hin Hne)].
      intros [moves' [Hm' Hs']]. congruence.
    + intros H q' a' Hin Hne. apply elem_of_cons in Hin.
      destruct Hin as [[= -> ->] | Hin]; [| exact (IH H q' a' Hin Hne)].
      apply negb_false_iff, Color_eqb_eq in Hc. contradiction.
Qed.

(** X17: When [isInCheck] returns, the map holds a king of that colour, and the
    answer is true exactly when some piece of the other colour has that
    king's recorded position in its move set. *)
Theorem isInCheck_spec (b : Board) (c : Color) (r : bool) :
  isInCheck b c = Ret r ->
  exists k king,
    pieceMap b !! k = Some (Some king)
    /\ kind king = King /\ color king = c
    /\ (r = true
        <-> exists q a, pieceMap b !! q = Some (Some a)
                        /\ color a <> c /\ attacks b a (position king)).
Proof.
  unfold isInCheck, findKing, entries.
  destruct (findKingIn _ c) as [[king|]|] eqn:Hk; simpl; try discriminate.
  intros H. destruct (findKingIn_found _ _ _ Hk) as (k & Hin & Hkind & Hcol).
  apply elem_of_map_to_list in Hin.
  exists k, king. repeat split; try assumption.
  - intros ->. destruct (attackedIn_true _ _ _ _ H) as (q & a & Hq & Hrest).
    apply elem_of_map_to_list in Hq. exists q, a. tauto.
  - intros (q & a & Hq & Hne & Hat). destruct r; [reflexivity |].
    exfalso. apply elem_of_map_to_list in Hq.
    exact (attackedIn_false _ _ _ _ H q a Hq Hne Hat).
Qed.

Lemma isInCheck_spec_witness :
  exists k king,
    pieceMap newBoard !! k = Some (Some king)
    /\ kind king = King /\ color king = WHITE
    /\ (false = true
        <-> exists q a, pieceMap newBoard !! q = Some (Some a)
                        /\ color a <> WHITE /\ attacks newBoard a (position king)).
Proof.
  apply (isInCheck_spec newBoard WHITE false). vm_compute. reflexivity.
Defined.

Lemma isInCheck_without_king_witness :
  isInCheck (with_pieceMap ∅ newBoard) BLACK = Crash NullDereference.
Proof.
  apply (isInCheck_without_king (with_pieceMap ∅ newBoard) BLACK).
  intros k x Hl. simpl in Hl. rewrite lookup_empty in Hl. discriminate.
Defined.

(** ** Trial moves: [simulateMoveAndCheck], [isCheckmate], [isStalemate] *)

Lemma same_frame_refl (b : Board) : same_frame b b.
Proof. unfold same_frame. tauto. Qed.

Lemma same_frame_trans (b1 b2 b3 : Board) :
  same_frame b1 b2 -> same_frame b2 b3 -> same_frame b1 b3.
Proof. unfold same_frame. intuition congruence. Qed.

Lemma attackedIn_null (b : Board) (es : list (Position * option ChessPiece))
    (c : Color) (kingPos k : Position) :
  (k, None) ∈ es -> attackedIn b es c kingPos <> Ret false.
Proof.
  induction es as [| [q [a|]] es IH]; simpl; intros Hin.
  - inversion Hin.
  - apply elem_of_cons in Hin. destruct Hin as [[=] | Hin].
    destruct (negb (Color_eqb (color a) c)); [| exact (IH Hin)].
    destruct (legalMoves a _ _ _) as [moves|]; simpl; [| discriminate].
    destruct (set_mem kingPos moves); [discriminate | exact (IH Hin)].
  - discriminate.
Qed.

Lemma tryPieces_null (b : Board) (es : list (Position * option ChessPiece))
    (c : Color) (k : Position) (b' : Board) :
  (k, None) ∈ es -> tryPieces b es c <> Ret (true, b').
Proof.
  revert b. induction es as [| [q [a|]] es IH]; simpl; intros b Hin.
  - inversion Hin.
  - apply elem_of_cons in Hin. destruct Hin as [[=] | Hin].
    destruct (Color_eqb (color a) c); [| exact (IH b Hin)].
    destruct (legalMoves a _ _ _) as [moves|]; simpl; [| discriminate].
    destruct (tryMoves b q moves c) as [[escaped b1]|]; simpl; [| discriminate].
    destruct escaped; [discriminate | exact (IH b1 Hin)].
  - discriminate.
Qed.

(** X19: With a null pointer stored anywhere in the map, [isInCheck] never
    answers false, and neither [isCheckmate] nor [isStalemate] ever answers
    true: each either gives the other answer or dereferences the pointer. *)
Theorem null_entry_blocks_answers (b : Board) (c : Color) (k : Position) :
  pieceMap b !! k = Some None ->
  isInCheck b c <> Ret false
  /\ (forall b', isCheckmate b c <> Ret (true, b'))
  /\ (forall b', isStalemate b c <> Ret (true, b')).
Proof.
  intros Hk. apply elem_of_map_to_list in Hk.
  assert (Hcheck : isInCheck b c <> Ret false).
  { unfold isInCheck, findKing.
    destruct (findKingIn _ c) as [[king|]|]; simpl; try discriminate.
    exact (attackedIn_null _ _ _ _ _ Hk). }
  split; [exact Hcheck |]. split; intros b'.
  - unfold isCheckmate. destruct (isInCheck b c) as [[|]|]; simpl; try discriminate.
    exact (tryPieces_null _ _ _ _ _ Hk).
  - unfold isStalemate. destruct (isInCheck b c) as [[|]|]; simpl; try discriminate.
    contradiction.
Qed.

Lemma null_entry_blocks_answers_witness :
  isInCheck (boardOf (isStalemate kingsOnly WHITE)) BLACK <> Ret false
  /\ (forall b', isCheckmate (boardOf (isStalemate kingsOnly WHITE)) BLACK
                 <> Ret (true, b'))
  /\ (forall b', isStalemate (boardOf (isStalemate kingsOnly WHITE)) BLACK
                 <> Ret (true, b')).
Proof.
  apply (null_entry_blocks_answers (boardOf (isStalemate kingsOnly WHITE)) BLACK
           (square "d" 1)).
  vm_compute. reflexivity.
Defined.

(** ** The en-passant flag over a whole game *)

Lemma simulateMoveAndCheck_frame (b : Board) (from to : Position) (c : Color)
    (r : bool) (b' : Board) :
  simulateMoveAndCheck b from to c = Ret (r, b') -> same_frame b b'.
Proof.
  unfold simulateMoveAndCheck.
  destruct (pieceMap b !! from) as [[piece|]|]; try discriminate.
  destruct (isInCheck _ c) as [inCheck|]; simpl; [| discriminate].
  intros [= <- <-]. unfold same_frame, rights. simpl. tauto.
Qed.

Lemma tryMoves_frame (b : Board) (from : Position) (moves : list Position)
    (c : Color) (r : bool) (b' : Board) :
  tryMoves b from moves c = Ret (r, b') -> same_frame b b'.
Proof.
  revert b. induction moves as [| move moves IH]; simpl; intros b.
  - intros [= <- <-]. apply same_frame_refl.
  - destruct (simulateMoveAndCheck b from move c) as [[inCheck b1]|] eqn:Hs; simpl;
      [| discriminate].
    pose proof (simulateMoveAndCheck_frame _ _ _ _ _ _ Hs) as Hf.
    destruct (negb inCheck).
    + intros [= <- <-]. exact Hf.
    + intros H. exact (same_frame_trans _ _ _ Hf (IH b1 H)).
Qed.

Lemma tryPieces_frame (b : Board) (es : list (Position * option ChessPiece))
    (c : Color) (r : bool) (b' : Board) :
  tryPieces b es c = Ret (r, b') -> same_frame b b'.
Proof.
  revert b. induction es as [| [from [x|]] es IH]; simpl; intros b; try discriminate.
  - intros [= <- <-]. apply same_frame_refl.
  - destruct (Color_eqb (color x) c); [| exact (IH b)].
    destruct (legalMoves x _ _ _) as [moves|]; simpl; [| discriminate].
    destruct (tryMoves b from moves c) as [[escaped b1]|] eqn:Ht; simpl;
      [| discriminate].
    pose proof (tryMoves_frame _ _ _ _ _ _ Ht) as Hf.
    destruct escaped.
    + intros [= <- <-]. exact Hf.
    + intros H. exact (same_frame_trans _ _ _ Hf (IH b1 H)).
Qed.

Lemma call_keeps_flag_false (b : Board) (k : Call) (b' : Board) :
  enPassantAvailable b = false ->
  call b k = Ret b' ->
  enPassantAvailable b' = false.
Proof.
  intros He. destruct k as [from to | c | c]; simpl.
  - destruct (movePiece b from to) as [[r b1]|] eqn:Hm; simpl; [| discriminate].
    intros [= <-]. destruct r.
    + destruct (movePiece_squares _ _ _ _ _ Hm) as (f & t & _ & _ & Hat).
      apply movePieceAt_success in Hat. tauto.
    + destruct (movePiece_squares _ _ _ _ _ Hm) as (f & t & _ & _ & Hat).
      rewrite (movePieceAt_rejected _ _ _ _ Hat). exact He.
  - unfold isCheckmate.
    destruct (isInCheck b c) as [inCheck|]; simpl; [| discriminate].
    destruct (negb inCheck); simpl.
    + intros [= <-]. exact He.
    + destruct (tryPieces b _ c) as [[r b1]|] eqn:Ht; simpl; [| discriminate].
      intros [= <-]. apply tryPieces_frame in Ht.
      unfold same_frame in Ht. intuition congruence.
  - unfold isStalemate.
    destruct (isInCheck b c) as [inCheck|]; simpl; [| discriminate].
    destruct inCheck; simpl.
    + intros [= <-]. exact He.
    + destruct (tryPieces b _ c) as [[r b1]|] eqn:Ht; simpl; [| discriminate].
      intros [= <-]. apply tryPieces_frame in Ht.
      unfold same_frame in Ht. intuition congruence.
Qed.

Lemma calls_keep_flag_false (ks : list Call) (b b' : Board) :
  enPassantAvailable b = false ->
  calls b ks = Ret b' ->
  enPassantAvailable b' = false.
Proof.
  revert b. induction ks as [| k ks IH]; simpl; intros b He.
  - intros [= <-]. exact He.
  - destruct (call b k) as [b1|] eqn:Hc; simpl; [| discriminate].
    apply IH. exact (call_keeps_flag_false _ _ _ He Hc).
Qed.

(** X21: On every board that a game reaches from the starting position, through
    any calls of [movePiece], [isCheckmate] and [isStalemate], the en-passant
    flag is false, and the move set of a pawn consists of its advances and
    its captures: the en-passant square is never offered. *)
Theorem en_passant_never_available (ks : list Call) (b : Board) :
  calls newBoard ks = Ret b ->
  enPassantAvailable b = false
  /\ forall x moves p,
       Pawn.legalMoves x (pieceMap b) (lastMovePos b) (enPassantAvailable b) = Ret moves ->
       (set_mem p moves = true
        <-> Pawn_advances x (pieceMap b) p \/ Pawn_takes x (pieceMap b) p).
Proof.
  intros H. assert (He : enPassantAvailable b = false)
    by exact (calls_keep_flag_false ks newBoard b eq_refl H).
  split; [exact He |]. intros x moves p Hm.
  rewrite (Pawn_legalMoves_mem _ _ _ _ _ p Hm).
  unfold Pawn_passes. rewrite He. intuition discriminate.
Qed.

Lemma en_passant_never_available_witness :
  enPassantAvailable (boardAfter (calls newBoard opening)) = false
  /\ forall x moves p,
       Pawn.legalMoves x (pieceMap (boardAfter (calls newBoard opening)))
         (lastMovePos (boardAfter (calls newBoard opening)))
         (enPassantAvailable (boardAfter (calls newBoard opening))) = Ret moves ->
       (set_mem p moves = true
        <-> Pawn_advances x (pieceMap (boardAfter (calls newBoard opening))) p
            \/ Pawn_takes x (pieceMap (boardAfter (calls newBoard opening))) p).
Proof.
  apply (en_passant_never_available opening).
  vm_compute. reflexivity.
Defined.

(** ** Runs that cannot crash *)

Lemma King_fold_total (x : ChessPiece) (board : PieceMap) (ds : list (Z * Z))
    (acc : list Position) :
  no_null_entries board ->
  exists moves, fold_left (King.step x board) ds (Ret acc) = Ret moves.
Proof.
  intros Hn. revert acc. induction ds as [| d ds IH]; simpl; intros acc.
  - eexists. reflexivity.
  - remember (King.step x board (Ret acc) d) as st eqn:Hst.
    unfold King.step in Hst. simpl in Hst.
    destruct (in_bounds _); [| subst st; apply IH].
    destruct (board !! _) as [[y|]|] eqn:Hl;
      [| exfalso; exact (Hn _ Hl) | subst st; apply IH].
    destruct (negb _); subst st; apply IH.
Qed.

Lemma probe_total (x : ChessPiece) (board : PieceMap) (q : Position)
    (moves : list Position) :
  no_null_entries board ->
  exists res, Diagonal.probe x board q moves = Ret res.
Proof.
  intros Hn. unfold Diagonal.probe.
  destruct (in_bounds q); [| eexists; reflexivity].
  destruct (board !! q) as [[y|]|] eqn:Hl;
    [| exfalso; exact (Hn _ Hl) | eexists; reflexivity].
  destruct (negb _); eexists; reflexivity.
Qed.

Lemma body_total (x : ChessPiece) (board : PieceMap) (i : Z) (moves : list Position) :
  no_null_entries board ->
  exists res, Diagonal.body x board i moves = Ret res.
Proof.
  intros Hn. unfold Diagonal.body.
  destruct (probe_total x board
              (mkPosition (column (position x) + i) (row (position x) + i)) moves Hn)
    as [[m1 s1] ->]; simpl.
  destruct s1; [eexists; reflexivity |].
  destruct (probe_total x board
              (mkPosition (column (position x) - i) (row (position x) + i)) m1 Hn)
    as [[m2 s2] ->]; simpl.
  destruct s2; [eexists; reflexivity |].
  destruct (probe_total x board
              (mkPosition (column (position x) + i) (row (position x) - i)) m2 Hn)
    as [[m3 s3] ->]; simpl.
  destruct s3; [eexists; reflexivity |].
  apply probe_total. exact Hn.
Qed.

Lemma loop_total (x : ChessPiece) (board : PieceMap) (range : list Z)
    (moves : list Position) :
  no_null_entries board ->
  exists res, Diagonal.loop x board range moves = Ret res.
Proof.
  intros Hn. revert moves. induction range as [| i range IH]; simpl; intros moves.
  - eexists. reflexivity.
  - destruct (body_total x board i moves Hn) as [[m1 s1] ->]; simpl.
    destruct s1; [eexists; reflexivity | apply IH].
Qed.

Lemma Pawn_legalMoves_total (x : ChessPiece) (board : PieceMap) (l : Position) :
  no_null_entries board ->
  exists moves, Pawn.legalMoves x board l false = Ret moves.
Proof.
  intros Hn. unfold Pawn.legalMoves, Pawn.capture, holds_opponent. cbv zeta.
  destruct (board !! mkPosition (column (position x) + -1) _) as [[y|]|] eqn:H1;
    [| exfalso; exact (Hn _ H1) |]; simpl;
    (destruct (board !! mkPosition (column (position x) + 1) _) as [[z|]|] eqn:H2;
     [| exfalso; exact (Hn _ H2) |]); simpl; eexists; reflexivity.
Qed.

(** On a map without null pointers, and with the en-passant flag off,
    every piece is given a move set. *)
Lemma legalMoves_total (x : ChessPiece) (board : PieceMap) (l : Position) :
  no_null_entries board ->
  exists moves, legalMoves x board l false = Ret moves.
Proof.
  intros Hn. unfold legalMoves. destruct (kind x).
  - apply Pawn_legalMoves_total. exact Hn.
  - eexists. reflexivity.
  - eexists. reflexivity.
  - apply loop_total. exact Hn.
  - apply loop_total. exact Hn.
  - apply King_fold_total. exact Hn.
Qed.

(** X22: On a board without null pointers and with the en-passant flag off,
    [movePiece] always returns: it accepts or refuses the move, and never
    dereferences a null pointer, lets [at] throw or uses a deleted piece. *)
Theorem movePiece_returns (b : Board) (from to : string) (f t : Position) :
  squareOf from = Ret f ->
  squareOf to = Ret t ->
  no_null_entries (pieceMap b) ->
  enPassantAvailable b = false ->
  exists r b', movePiece b from to = Ret (r, b').
Proof.
  intros Hf Ht Hn He. rewrite (movePiece_at _ _ _ _ _ Hf Ht).
  unfold movePieceAt.
  destruct (pieceMap b !! f) as [[piece|]|] eqn:Hp;
    [| exfalso; exact (Hn _ Hp) | eexists _, _; reflexivity].
  destruct (kind piece);
    [ rewrite He;
      destruct (Pawn_legalMoves_total piece (pieceMap b) (lastMovePos b) Hn)
        as [moves ->]; simpl;
      destruct (set_mem t moves); simpl; eexists _, _; reflexivity
    | .. ];
    repeat match goal with
      | |- context [if ?c then _ else _] => destruct c
      | |- context [castle ?rc ?kc ?s b ?x ?p] =>
          destruct (castle rc kc s b x p) as [? ?]
      end;
    eexists _, _; reflexivity.
Qed.

Lemma no_null_entries_by_entries (m : PieceMap) :
  forallb (fun '(_, o) => match o : option ChessPiece with
                          | Some _ => true
                          | None => false
                          end) (map_to_list m) = true ->
  no_null_entries m.
Proof.
  intros H k Hk. rewrite forallb_forall in H.
  apply elem_of_map_to_list, list_elem_of_In in Hk.
  specialize (H _ Hk). discriminate.
Qed.

Lemma movePiece_returns_witness :
  exists r b', movePiece newBoard "e2" "e4" = Ret (r, b').
Proof.
  apply (movePiece_returns newBoard "e2" "e4" (square "e" 2) (square "e" 4)).
  - vm_compute. reflexivity.
  - vm_compute. reflexivity.
  - apply no_null_entries_by_entries. vm_compute. reflexivity.
  - reflexivity.
Defined.

Lemma findKingIn_finds (es : list (Position * option ChessPiece)) (c : Color)
    (k : Position) (king : ChessPiece) :
  (forall q, (q, None) ∉ es) ->
  (k, Some king) ∈ es ->
  kind king = King -> color king = c ->
  exists king', findKingIn es c = Ret (Some king').
Proof.
  intros Hn Hin Hk Hc. induction es as [| [q [x|]] es IH]; simpl.
  - inversion Hin.
  - destruct (Color_eqb (color x) c && _) eqn:Ht; [eexists; reflexivity |].
    apply IH.
    + intros q' Hq. apply (Hn q'). right. exact Hq.
    + apply elem_of_cons in Hin. destruct Hin as [[= -> ->] | Hin]; [| exact Hin].
      assert (Color_eqb (color x) c
              && String.eqb (toString x)
                   (match c with WHITE => "K" | BLACK => "k" end) = true)
        by (apply king_test; tauto).
      congruence.
  - exfalso. apply (Hn q). left.
Qed.

Lemma attackedIn_total (b : Board) (es : list (Position * option ChessPiece))
    (c : Color) (kingPos : Position) :
  no_null_entries (pieceMap b) ->
  enPassantAvailable b = false ->
  (forall q, (q, None) ∉ es) ->
  exists r, attackedIn b es c kingPos = Ret r.
Proof.
  intros Hclean He Hn. induction es as [| [q [x|]] es IH]; simpl.
  - eexists. reflexivity.
  - assert (IH' : exists r, attackedIn b es c kingPos = Ret r).
    { apply IH. intros q' Hq. apply (Hn q'). right. exact Hq. }
    destruct (negb (Color_eqb (color x) c)); [| exact IH'].
    rewrite He.
    destruct (legalMoves_total x (pieceMap b) (lastMovePos b) Hclean) as [moves ->].
    simpl. destruct (set_mem kingPos moves); [eexists; reflexivity | exact IH'].
  - exfalso. apply (Hn q). left.
Qed.

(** X23: On a board without null pointers, with the en-passant flag off and
    with a king of the colour asked for, [isInCheck] always returns an
    answer. *)
Theorem isInCheck_returns (b : Board) (c : Color) (k : Position) (king : ChessPiece) :
  no_null_entries (pieceMap b) ->
  enPassantAvailable b = false ->
  pieceMap b !! k = Some (Some king) ->
  kind king = King ->
  color king = c ->
  exists r, isInCheck b c = Ret r.
Proof.
  intros Hclean He Hking Hk Hc.
  assert (Hn : forall q, (q, None) ∉ map_to_list (pieceMap b)).
  { intros q Hq. apply elem_of_map_to_list in Hq. exact (Hclean _ Hq). }
  apply elem_of_map_to_list in Hking.
  unfold isInCheck, findKing, entries.
  destruct (findKingIn_finds _ c k king Hn Hking Hk Hc) as [king' ->]. simpl.
  apply attackedIn_total; assumption.
Qed.

Lemma isInCheck_returns_witness :
  exists r, isInCheck newBoard BLACK = Ret r.
Proof.
  apply (isInCheck_returns newBoard BLACK (square "e" 8)
           (newPieceAt King BLACK (square "e" 8))).
  - apply no_null_entries_by_entries. vm_compute. reflexivity.
  - reflexivity.
  - vm_compute. reflexivity.
  - reflexivity.
  - reflexivity.
Defined.

(** ** The symbols of the pieces *)

(** X24: [toString] tells the kind and the colour apart: two pieces with the
    same symbol have the same kind and the same colour.  The tests that
    [movePiece], [findKing] and [Pawn::legalMoves] make on symbols are tests
    of kind and colour. *)
Theorem toString_injective (x y : ChessPiece) :
  toString x = toString y <-> kind x = kind y /\ color x = color y.
Proof.
  unfold toString. split.
  - destruct (kind x), (color x), (kind y), (color y); simpl;
      intros H; try discriminate H; split; reflexivity.
  - intros [-> ->]. reflexivity.
Qed.

(** ** [Board::display] *)

Lemma toString_one_char (x : ChessPiece) :
  exists a, toString x = String a EmptyString.
Proof.
  unfold toString. destruct (kind x), (color x); eexists; reflexivity.
Qed.

Lemma cell_shown (m : PieceMap) (pos : Position) (s : string) :
  cell m pos = Ret s -> s = String (shown m pos) (String " " EmptyString).
Proof.
  unfold cell, shown. destruct (m !! pos) as [[x|]|]; try discriminate.
  - destruct (toString_one_char x) as [a ->]. intros [= <-]. reflexivity.
  - intros [= <-]. reflexivity.
Qed.

Lemma rowCells_render (m : PieceMap) (r : Z) (cols : list ascii) (s : string) :
  rowCells m r cols = Ret s -> s = renderCells (shown m) r cols.
Proof.
  revert s. induction cols as [| col cols IH]; simpl; intros s.
  - intros [= <-]. reflexivity.
  - destruct (cell m (ch col, r)) as [c|] eqn:Hc; simpl; [| discriminate].
    destruct (rowCells m r cols) as [rest|]; simpl; [| discriminate].
    intros [= <-]. rewrite (cell_shown _ _ _ Hc), (IH rest eq_refl). reflexivity.
Qed.

Lemma displayRows_render (m : PieceMap) (rows : list Z) (s : string) :
  displayRows m rows = Ret s -> s = renderRows (shown m) rows.
Proof.
  revert s. induction rows as [| r rows IH];
    cbn [displayRows renderRows]; intros s.
  - intros [= <-]. reflexivity.
  - generalize files. intros fs.
    destruct (rowCells m r fs) as [cells|] eqn:Hc; simpl; [| discriminate].
    destruct (displayRows m rows) as [rest|]; simpl; [| discriminate].
    intros [= <-]. rewrite (rowCells_render _ _ _ _ Hc), (IH rest eq_refl).
    reflexivity.
Qed.

Lemma in_bounds_cases (p : Position) :
  in_bounds p = true ->
  In (column p) [97; 98; 99; 100; 101; 102; 103; 104]
  /\ In (row p) [8; 7; 6; 5; 4; 3; 2; 1].
Proof. intros H. apply in_bounds_range in H. simpl. lia. Qed.

(** X25: The text that [display] writes shows every square of the board at its
    place: the symbol of the piece stored under the square, or a dot when the
    map has no entry for it. *)
Theorem display_shows (b : Board) (text : string) (p : Position) :
  display b = Ret text ->
  in_bounds p = true ->
  String.get (offsetOf p) text = Some (shown (pieceMap b) p).
Proof.
  unfold display.
  destruct (displayRows (pieceMap b) eight_to_one) as [rows|] eqn:Hr; simpl;
    [| discriminate].
  intros [= <-] Hb. rewrite (displayRows_render _ _ _ Hr).
  generalize (shown (pieceMap b)). intros g.
  destruct p as [c r]. apply in_bounds_cases in Hb.
  unfold column, row in Hb. simpl fst in Hb. simpl snd in Hb.
  destruct Hb as [Hc Hrow].
  simpl in Hc, Hrow.
  repeat (destruct Hc as [<- | Hc]; [| ]); try contradiction;
    repeat (destruct Hrow as [<- | Hrow]; [| ]); try contradiction;
    vm_compute; reflexivity.
Qed.

Lemma rowCells_returns (m : PieceMap) (r : Z) (cols : list ascii) :
  (exists s, rowCells m r cols = Ret s)
  <-> forall col, In col cols -> m !! (ch col, r) <> Some None.
Proof.
  induction cols as [| col cols IH]; cbn [rowCells].
  - split; [intros _ col [] | intros _; eexists; reflexivity].
  - split.
    + intros [s Hs] col' [<- | Hin].
      * unfold cell in Hs. destruct (m !! (ch col, r)) as [[x|]|]; simpl in Hs;
          congruence.
      * apply (proj1 IH); [| exact Hin].
        destruct (cell m (ch col, r)) as [c|]; simpl in Hs; [| discriminate].
        destruct (rowCells m r cols) as [rest|]; [eexists; reflexivity | discriminate].
    + intros Hall.
      destruct (proj2 IH) as [rest ->]; [intros c Hc; apply Hall; right; exact Hc |].
      unfold cell. pose proof (Hall col (or_introl eq_refl)) as Hcol.
      destruct (m !! (ch col, r)) as [[x|]|]; simpl;
        [eexists; reflexivity | contradiction | eexists; reflexivity].
Qed.

Lemma displayRows_returns (m : PieceMap) (rows : list Z) :
  (exists s, displayRows m rows = Ret s)
  <-> forall r col, In r rows -> In col files -> m !! (ch col, r) <> Some None.
Proof.
  induction rows as [| r rows IH]; cbn [displayRows].
  - split; [intros _ r col [] | intros _; eexists; reflexivity].
  - split.
    + intros [s Hs] r' col [<- | Hin] Hcol.
      * apply (proj1 (rowCells_returns m r files)); [| exact Hcol].
        destruct (rowCells m r files) as [cells|]; [eexists; reflexivity | discriminate].
      * apply (proj1 IH); [| exact Hin | exact Hcol].
        destruct (rowCells m r files) as [cells|]; simpl in Hs; [| discriminate].
        destruct (displayRows m rows) as [rest|]; [eexists; reflexivity | discriminate].
    + intros Hall.
      destruct (proj2 (rowCells_returns m r files)) as [cells ->];
        [intros col Hcol; apply Hall; [left; reflexivity | exact Hcol] |].
      destruct (proj2 IH) as [rest ->];
        [intros r' col Hr Hcol; apply Hall; [right; exact Hr | exact Hcol] |].
      eexists. reflexivity.
Qed.

(** X26: [display] runs to its end exactly when no square of the board has a
    null pointer stored under it; otherwise it dereferences one. *)
Theorem display_returns_iff (b : Board) :
  (exists text, display b = Ret text)
  <-> forall p, in_bounds p = true -> pieceMap b !! p <> Some None.
Proof.
  unfold display. split.
  - intros [text Ht] p Hb.
    assert (Hrows : exists s, displayRows (pieceMap b) eight_to_one = Ret s).
    { destruct (displayRows _ _) as [rows|]; [eexists; reflexivity | discriminate]. }
    pose proof (proj1 (displayRows_returns _ _) Hrows) as Hall.
    destruct p as [c r]. apply in_bounds_cases in Hb.
    unfold column, row in Hb. simpl fst in Hb. simpl snd in Hb.
    destruct Hb as [Hc Hr].
    assert (Hcol : exists col, In col files /\ ch col = c).
    { simpl in Hc. unfold files.
      destruct Hc as [<- | [<- | [<- | [<- | [<- | [<- | [<- | [<- | []]]]]]]]];
        [ exists "a"%char | exists "b"%char | exists "c"%char | exists "d"%char
        | exists "e"%char | exists "f"%char | exists "g"%char | exists "h"%char ];
        (split; [simpl; tauto | reflexivity]). }
    destruct Hcol as (col & Hcol & <-). exact (Hall r col Hr Hcol).
  - intros Hall.
    destruct (proj2 (displayRows_returns (pieceMap b) eight_to_one)) as [rows ->].
    + intros r col Hr Hcol. apply Hall. apply in_bounds_range.
      unfold column, row. simpl fst. simpl snd.
      unfold eight_to_one in Hr. unfold files in Hcol. simpl in Hr, Hcol.
      repeat (destruct Hcol as [<- | Hcol]; [vm_compute ch; lia |]). contradiction.
    + eexists. reflexivity.
Qed.

(** ** Which moves [movePiece] accepts *)

(** X27: For a pawn, [movePiece] answers whether the target is in the pawn's
    move set. *)
Theorem movePiece_pawn_answer (b : Board) (from to : string) (f t : Position)
    (pawn : ChessPiece) (moves : list Position) (r : bool) (b' : Board) :
  squareOf from = Ret f ->
  squareOf to = Ret t ->
  pieceMap b !! f = Some (Some pawn) ->
  kind pawn = Pawn ->
  Pawn.legalMoves pawn (pieceMap b) (lastMovePos b) (enPassantAvailable b) = Ret moves ->
  movePiece b from to = Ret (r, b') ->
  r = set_mem t moves.
Proof.
  intros Hf Ht Hp Hk Hm. rewrite (movePiece_at _ _ _ _ _ Hf Ht).
  unfold movePieceAt. rewrite Hp, Hk, Hm. simpl.
  destruct (set_mem t moves); simpl.
  - intros H. apply finishMove_inv in H. tauto.
  - intros [= <- _]. reflexivity.
Qed.

Lemma movePiece_pawn_answer_witness :
  true = set_mem (square "e" 4) (movesOf (movesFrom newBoard (square "e" 2))).
Proof.
  apply (movePiece_pawn_answer newBoard "e2" "e4" (square "e" 2) (square "e" 4)
           (pieceOn newBoard (square "e" 2))
           (movesOf (movesFrom newBoard (square "e" 2)))
           true (boardOf (movePiece newBoard "e2" "e4")));
    vm_compute; reflexivity.
Defined.

(** X28: For any other piece, [movePiece] accepts every target, on or off the
    board, empty or held by either colour. *)
Theorem movePiece_accepts_other_pieces (b : Board) (from to : string) (f t : Position)
    (piece : ChessPiece) :
  squareOf from = Ret f ->
  squareOf to = Ret t ->
  pieceMap b !! f = Some (Some piece) ->
  kind piece <> Pawn ->
  exists b', movePiece b from to = Ret (true, b').
Proof.
  intros Hf Ht Hp Hk. rewrite (movePiece_at _ _ _ _ _ Hf Ht).
  exact (movePieceAt_non_pawn b f t piece Hp Hk).
Qed.

Lemma movePiece_accepts_other_pieces_witness :
  exists b', movePiece newBoard "a1" "z9" = Ret (true, b').
Proof.
  apply (movePiece_accepts_other_pieces newBoard "a1" "z9" (square "a" 1) (square "z" 9)
           (pieceOn newBoard (square "a" 1))).
  - vm_compute. reflexivity.
  - vm_compute. reflexivity.
  - vm_compute. reflexivity.
  - vm_compute. discriminate.
Defined.

Lemma display_shows_witness :
  String.get (offsetOf (square "e" 1)) (textOf (display newBoard))
  = Some (shown (pieceMap newBoard) (square "e" 1)).
Proof.
  apply (display_shows newBoard (textOf (display newBoard)) (square "e" 1));
    vm_compute; reflexivity.
Defined.
